(** * Tic-Tac-Toe (src/app.js): the game logic and its properties

    The page keeps its whole game in five variables of one closure
    ([cells], [currentPlayer], [finished], [isProcessing], [score]) and
    changes them from two event handlers: the click handler of a board
    button and the click handler of the Reset button.  This file embeds
    those variables as a record, the handlers as functions in a small
    state-and-exception monad, and proves the properties of the
    specification about them. *)

From stdpp Require Import gmap list.
From Stdlib Require Import ZArith Lia.

Local Open Scope Z_scope.

(** ** JavaScript values held by the game *)

(** The two marks, the strings ['X'] and ['O']. *)
Inductive player : Set := X | O.

(** The values a board lookup can yield: [undefined] (no such element),
    [null] (an empty cell) and a mark. *)
Inductive value : Set :=
| Undefined
| Null
| Str (p : player).

#[global] Instance player_eq_dec : EqDecision player.
Proof. solve_decision. Defined.

#[global] Instance value_eq_dec : EqDecision value.
Proof. solve_decision. Defined.

(** [Boolean(v)]: [undefined] and [null] are falsy, the non-empty
    strings ['X'] and ['O'] are truthy. *)
Definition truthy (v : value) : bool :=
  match v with
  | Str _ => true
  | Undefined | Null => false
  end.

(** [v === w] *)
Definition strict_eq (v w : value) : bool := bool_decide (v = w).

(** [currentPlayer === 'X' ? 'O' : 'X'] *)
Definition toggle (p : player) : player :=
  match p with
  | X => O
  | O => X
  end.

(** ** JavaScript arrays

    An array is an object: a finite map from keys to values and a
    [length].  Reading a key that is absent yields [undefined]; writing
    any key succeeds, and writing an array index at or beyond [length]
    grows [length] (the elements in between stay absent: holes). *)
Module JsArray.

Record t : Type := mk { props : gmap Z value; length : Z }.

(** [Array(n)] : [n] holes. *)
Definition Array (n : Z) : t := {| props := ∅; length := n |}.

(** [a[i]] *)
Definition get (a : t) (i : Z) : value := default Undefined (props a !! i).

(** [a[i] = v].  Array indices are the integers in [0, 2^32 - 2]. *)
Definition set (a : t) (i : Z) (v : value) : t :=
  {| props := <[i := v]> (props a);
     length := if bool_decide (0 ≤ i < 2 ^ 32 - 1 ∧ length a ≤ i)
               then i + 1 else length a |}.

(** [a.fill(v)] *)
Definition fill (a : t) (v : value) : t :=
  foldl (fun acc i => set acc i v) a (seqZ 0 (length a)).

(** [a.every(f)]: holes are skipped. *)
Definition every (f : value → bool) (a : t) : bool :=
  forallb (fun i => match props a !! i with
                    | Some v => f v
                    | None => true
                    end) (seqZ 0 (length a)).

(** The array literal [[v0, v1, ...]]. *)
Definition of_list (l : list value) : t :=
  {| props := list_to_map (zip (seqZ 0 (Z.of_nat (List.length l))) l);
     length := Z.of_nat (List.length l) |}.

End JsArray.

(** ** Game state *)

(** [score = { X, O, draws }].  The counters are JavaScript numbers that
    only ever grow by [++] from [0]; they are modelled as natural
    numbers (the arithmetic is exact below 2^53). *)
Record scores : Set := mkScores { score_X : nat; score_O : nat; score_draws : nat }.

(** A winning combination, [[a, b, c]]. *)
Definition combo : Set := (Z * Z * Z)%type.

(** Why [validateMove] turned a click down: the three messages handed to
    [showInvalidFeedback], 'move already processing', 'game finished' and
    'cell already occupied by ...' with the occupant. *)
Inductive reason : Set :=
| Busy
| GameOver
| CellOccupied (occupant : value).

(** The lines written to the console. *)
Inductive line : Set :=
| WarnInvalid (r : reason) (index : Z) (attempted_by : player)
| LogFinished
| LogClicked (idx : Z) (p : player)
| LogWins (winner : player) (c : combo)
| LogDraw
| LogNext (p : player)
| LogReset
| LogReady
| LogScore (sc : scores).

Record state : Type := mkState {
  cells : JsArray.t;          (* the board: null / 'X' / 'O' *)
  currentPlayer : player;     (* whose turn it is *)
  finished : bool;            (* whether the game has ended *)
  isProcessing : bool;        (* prevents rapid/concurrent moves *)
  score : scores;             (* running totals for the session *)
  console : list line         (* console output so far, oldest first *)
}.

Definition with_cells (c : JsArray.t) (s : state) : state :=
  mkState c (currentPlayer s) (finished s) (isProcessing s) (score s) (console s).
Definition with_currentPlayer (p : player) (s : state) : state :=
  mkState (cells s) p (finished s) (isProcessing s) (score s) (console s).
Definition with_finished (b : bool) (s : state) : state :=
  mkState (cells s) (currentPlayer s) b (isProcessing s) (score s) (console s).
Definition with_isProcessing (b : bool) (s : state) : state :=
  mkState (cells s) (currentPlayer s) (finished s) b (score s) (console s).
Definition with_score (sc : scores) (s : state) : state :=
  mkState (cells s) (currentPlayer s) (finished s) (isProcessing s) sc (console s).
Definition with_console (l : list line) (s : state) : state :=
  mkState (cells s) (currentPlayer s) (finished s) (isProcessing s) (score s) l.

(** ** Handlers as computations

    A handler runs to completion on the state and either returns or
    throws; the variables keep whatever values they had when it threw. *)
Inductive error : Set := TypeError.

Inductive completion (A : Type) : Type :=
| Normal (a : A) (s : state)
| Abrupt (e : error) (s : state).
Arguments Normal {A} a s.
Arguments Abrupt {A} e s.

Definition M (A : Type) : Type := state → completion A.

Definition ret {A} (a : A) : M A := fun s => Normal a s.
Definition bind {A B} (m : M A) (k : A → M B) : M B :=
  fun s => match m s with
           | Normal a s' => k a s'
           | Abrupt e s' => Abrupt e s'
           end.
Definition throw {A} (e : error) : M A := fun s => Abrupt e s.
Definition read {A} (f : state → A) : M A := fun s => Normal (f s) s.
Definition update (f : state → state) : M unit := fun s => Normal tt (f s).

Declare Scope js_scope.
Delimit Scope js_scope with js.
Notation "x <- c1 ;; c2" := (bind c1 (fun x => c2))
  (at level 100, c1 at next level, c2 at level 200, right associativity) : js_scope.
Notation "c1 ;; c2" := (bind c1 (fun _ => c2))
  (at level 100, c2 at level 200, right associativity) : js_scope.
Local Open Scope js_scope.

(** The state a handler leaves behind, however it completed. *)
Definition final {A} (c : completion A) : state :=
  match c with
  | Normal _ s => s
  | Abrupt _ s => s
  end.

(** [console.log(...)], [console.warn(...)] *)
Definition log (l : line) : M unit :=
  update (fun s => with_console (console s ++ [l]) s).

(** ** The game *)

(** [const wins = [...]], in source order. *)
Definition wins : list combo :=
  [ (0,1,2); (3,4,5); (6,7,8);   (* rows *)
    (0,3,6); (1,4,7); (2,5,8);   (* cols *)
    (0,4,8); (2,4,6) ].          (* diagonals *)

(** What [checkWin] returns when the game is over: [{ winner, combo }]
    or [{ draw: true }]; [null] is [None]. *)
Inductive result : Set :=
| Winner (winner : player) (c : combo)
| Draw.

(** The condition of the [if] in the loop of [checkWin], on one
    combination:
    [cells[a] && cells[a] === cells[b] && cells[a] === cells[c]]. *)
Definition line_test (c : JsArray.t) (w : combo) : bool :=
  let '(a, b, c') := w in
  truthy (JsArray.get c a)
  && strict_eq (JsArray.get c a) (JsArray.get c b)
  && strict_eq (JsArray.get c a) (JsArray.get c c').

(** The [for (const combo of wins)] loop.  [cells[a] && ...] goes on to
    the comparisons only when [cells[a]] is truthy, that is a mark; the
    first combination that passes is returned with that mark as the
    winner. *)
Fixpoint scan (c : JsArray.t) (ws : list combo) : option result :=
  match ws with
  | [] => None
  | w :: rest =>
      let '(a, b, c') := w in
      match JsArray.get c a with
      | Str p =>
          if strict_eq (Str p) (JsArray.get c b)
             && strict_eq (Str p) (JsArray.get c c')
          then Some (Winner p w)
          else scan c rest
      | Undefined | Null => scan c rest
      end
  end.

Definition checkWin (c : JsArray.t) : option result :=
  match scan c wins with
  | Some r => Some r
  | None => if JsArray.every truthy c then Some Draw else None
  end.

(** [board.querySelector(`[data-index='${idx}']`)] on the page as built:
    the board holds the nine buttons built by the loop, with
    [data-index] 0 to 8; any other index selects nothing and yields
    [null]. *)
Definition querySelector (idx : Z) : option Z :=
  if bool_decide (0 ≤ idx < 9) then Some idx else None.

(** [showInvalidFeedback(cell, reason)]: [cell.classList] throws a
    [TypeError] on a [null] cell, before anything is written; otherwise
    the shake class is set (not modelled) and the warning is printed. *)
Definition showInvalidFeedback (cell : option Z) (r : reason) : M unit :=
  match cell with
  | None => throw TypeError
  | Some i => p <- read currentPlayer ;; log (WarnInvalid r i p)
  end.

Definition validateMove (idx : Z) : M bool :=
  let cell := querySelector idx in
  processing <- read isProcessing ;;
  if processing then
    showInvalidFeedback cell Busy ;;
    ret false
  else
  fin <- read finished ;;
  if fin then
    showInvalidFeedback cell GameOver ;;
    log LogFinished ;;
    ret false
  else
  c <- read cells ;;
  if negb (strict_eq (JsArray.get c idx) Null) then
    showInvalidFeedback cell (CellOccupied (JsArray.get c idx)) ;;
    ret false
  else
    ret true.

(** [score[result.winner]++] *)
Definition score_incr (p : player) (sc : scores) : scores :=
  match p with
  | X => mkScores (S (score_X sc)) (score_O sc) (score_draws sc)
  | O => mkScores (score_X sc) (S (score_O sc)) (score_draws sc)
  end.

(** [score.draws++] *)
Definition draws_incr (sc : scores) : scores :=
  mkScores (score_X sc) (score_O sc) (S (score_draws sc)).

(** The part of the click handler between taking and releasing
    [isProcessing]: place the mark, evaluate, then end the game or pass
    the turn.  The writes to the page (button text, highlight classes,
    banner, status line, scoreboard, disabled flags) are left out: the
    game never reads them back. *)
Definition placeAndEvaluate (idx : Z) : M unit :=
  p <- read currentPlayer ;;
  update (fun s => with_cells (JsArray.set (cells s) idx (Str p)) s) ;;
  log (LogClicked idx p) ;;
  r <- read (fun s => checkWin (cells s)) ;;
  match r with
  | Some (Winner w c) =>
      log (LogWins w c) ;;
      update (fun s => with_score (score_incr w (score s)) s) ;;
      update (with_finished true)
  | Some Draw =>
      log LogDraw ;;
      update (fun s => with_score (draws_incr (score s)) s) ;;
      update (with_finished true)
  | None =>
      update (fun s => with_currentPlayer (toggle (currentPlayer s)) s) ;;
      q <- read currentPlayer ;;
      log (LogNext q)
  end.

(** The click handler of the button with [data-index] [idx]; the
    specification calls it [applyMove(index)]. *)
Definition applyMove (idx : Z) : M unit :=
  ok <- validateMove idx ;;
  if negb ok then ret tt else
  update (with_isProcessing true) ;;
  placeAndEvaluate idx ;;
  update (with_isProcessing false).

(** The click handler of the Reset button. *)
Definition reset : M unit :=
  update (fun s =>
    with_cells (foldl (fun a i => JsArray.set a i Null) (cells s) (seqZ 0 9)) s) ;;
  update (with_finished false) ;;
  update (with_isProcessing false) ;;
  update (with_currentPlayer X) ;;
  log LogReset.

(** The state when the page has loaded. *)
Definition init : state :=
  {| cells := JsArray.fill (JsArray.Array 9) Null;
     currentPlayer := X;
     finished := false;
     isProcessing := false;
     score := mkScores 0 0 0;
     console := [LogReady; LogScore (mkScores 0 0 0)] |}.

(** ** Sessions

    The page reacts to two kinds of events; a session is a sequence of
    them.  An exception thrown by a handler ends that handler only.
    Sessions here are more liberal than the page: a click may come
    after the game has ended, when the page has disabled its buttons,
    and [Move idx] is defined for every integer, although on the page as
    built only the buttons 0 to 8 can be clicked. *)
Inductive op : Set :=
| Move (idx : Z)
| ResetGame.

Definition exec (o : op) (s : state) : state :=
  match o with
  | Move idx => final (applyMove idx s)
  | ResetGame => final (reset s)
  end.

Definition run (ops : list op) (s : state) : state :=
  foldl (fun st o => exec o st) s ops.

(** ** Clicks that carry another index

    The click handler takes its index from the [data-index] attribute
    of the clicked button, and [validateMove] looks a button up by the
    same attribute.  On the page as built the nine buttons carry 0 to 8,
    which is what [querySelector] above answers for.  A click can carry
    another index only when the attribute of its button reads so, and
    then the lookup finds a button that carries it.  Here the indices
    the buttons of the board carry are a parameter, [attrs], in document
    order. *)

(** [board.querySelector(`[data-index='${idx}']`)] on a board whose
    buttons carry [attrs]: the first button that carries [idx], of which
    [data-index] reads [idx]; [null] when none does. *)
Definition select (attrs : list Z) (idx : Z) : option Z :=
  if bool_decide (idx ∈ attrs) then Some idx else None.

(** [validateMove(idx)] on such a board. *)
Definition validateMoveOn (attrs : list Z) (idx : Z) : M bool :=
  let cell := select attrs idx in
  processing <- read isProcessing ;;
  if processing then
    showInvalidFeedback cell Busy ;;
    ret false
  else
  fin <- read finished ;;
  if fin then
    showInvalidFeedback cell GameOver ;;
    log LogFinished ;;
    ret false
  else
  c <- read cells ;;
  if negb (strict_eq (JsArray.get c idx) Null) then
    showInvalidFeedback cell (CellOccupied (JsArray.get c idx)) ;;
    ret false
  else
    ret true.

(** The click handler of a button that carries [idx], on such a board. *)
Definition applyMoveOn (attrs : list Z) (idx : Z) : M unit :=
  ok <- validateMoveOn attrs idx ;;
  if negb ok then ret tt else
  update (with_isProcessing true) ;;
  placeAndEvaluate idx ;;
  update (with_isProcessing false).



(** * The page

    What the handlers draw: the nine buttons, the result banner, the
    status line and the scoreboard, and the timeouts that end the shake
    of a button.  The game above is the part of the handlers that reads
    and writes the five variables; here the same handlers are written
    out in full, over the variables and the elements together. *)

(** A board button: its text ([''], ['X'] or ['O']), whether it carries
    the classes [cell--win] and [cell--invalid], and whether it is
    disabled. *)
Record button : Set := mkButton {
  textContent : option player;
  cell_win : bool;
  cell_invalid : bool;
  disabled : bool
}.

(** The button [document.createElement('button')] gives. *)
Definition new_button : button := mkButton None false false false.

(** The two texts of the banner: [`... Player ${winner} wins!`] and
    ['It\'s a draw!']. *)
Inductive message : Set :=
| MsgWins (winner : player)
| MsgDraw.

(** The [type] of [showResult]: ['win'] or ['draw']. *)
Inductive banner_type : Set := TypeWin | TypeDraw.

Record view : Set := mkView {
  buttons : list button;            (* the .cell buttons, in document order *)
  banner_text : option message;     (* resultBanner.textContent, None when empty *)
  banner_class : option banner_type;(* result-banner--win / --draw, None: neither *)
  banner_shown : bool;              (* style.display: 'block' or 'none' *)
  status_text : option player;      (* `Player ${p} to move`, None when empty *)
  status_hidden : bool;             (* style.display: 'none' or '' *)
  shown_X : nat;                    (* #score-x *)
  shown_O : nat;                    (* #score-o *)
  shown_draws : nat;                (* #score-draws *)
  timers : list Z                   (* pending timeouts, oldest first: the
                                       button each will stop shaking *)
}.

Record page : Type := mkPage { game : state; screen : view }.

Definition with_buttons (bs : list button) (v : view) : view :=
  mkView bs (banner_text v) (banner_class v) (banner_shown v) (status_text v)
         (status_hidden v) (shown_X v) (shown_O v) (shown_draws v) (timers v).
Definition with_timers (ts : list Z) (v : view) : view :=
  mkView (buttons v) (banner_text v) (banner_class v) (banner_shown v)
         (status_text v) (status_hidden v) (shown_X v) (shown_O v)
         (shown_draws v) ts.

(** [el.textContent = ...], [el.classList.add(...)], ... on one button. *)
Definition set_text (t : option player) (b : button) : button :=
  mkButton t (cell_win b) (cell_invalid b) (disabled b).
Definition set_win (w : bool) (b : button) : button :=
  mkButton (textContent b) w (cell_invalid b) (disabled b).
Definition set_invalid (i : bool) (b : button) : button :=
  mkButton (textContent b) (cell_win b) i (disabled b).
Definition set_disabled (d : bool) (b : button) : button :=
  mkButton (textContent b) (cell_win b) (cell_invalid b) d.

(** [const el = board.querySelector(`[data-index='${i}']`); if (el) ...]:
    the change [f] on the button with index [i], when there is one. *)
Definition on_button (i : Z) (f : button → button) (v : view) : view :=
  match querySelector i with
  | Some k => with_buttons (alter f (Z.to_nat k) (buttons v)) v
  | None => v
  end.

(** [setCellsDisabled(disabled)] *)
Definition setCellsDisabled (d : bool) (v : view) : view :=
  with_buttons (map (set_disabled d) (buttons v)) v.

(** [updateScore()] *)
Definition updateScore (s : state) (v : view) : view :=
  mkView (buttons v) (banner_text v) (banner_class v) (banner_shown v)
         (status_text v) (status_hidden v)
         (score_X (score s)) (score_O (score s)) (score_draws (score s))
         (timers v).

(** [updateStatus()]: nothing when the game has finished. *)
Definition updateStatus (s : state) (v : view) : view :=
  if finished s then v
  else mkView (buttons v) (banner_text v) (banner_class v) (banner_shown v)
              (Some (currentPlayer s)) (status_hidden v)
              (shown_X v) (shown_O v) (shown_draws v) (timers v).

(** [showResult(message, type)]: the banner is filled and shown, the
    status line hidden. *)
Definition showResult (m : message) (t : banner_type) (v : view) : view :=
  mkView (buttons v) (Some m) (Some t) true (status_text v) true
         (shown_X v) (shown_O v) (shown_draws v) (timers v).

(** [hideResult()]: the banner is hidden (its text and class stay), the
    status line comes back and is brought up to date. *)
Definition hideResult (s : state) (v : view) : view :=
  updateStatus s
    (mkView (buttons v) (banner_text v) (banner_class v) false (status_text v)
            false (shown_X v) (shown_O v) (shown_draws v) (timers v)).

(** ** Handlers over the page *)

Inductive outcome (A : Type) : Type :=
| Returned (a : A) (pg : page)
| Thrown (e : error) (pg : page).
Arguments Returned {A} a pg.
Arguments Thrown {A} e pg.

Definition P (A : Type) : Type := page → outcome A.

Definition pret {A} (a : A) : P A := fun pg => Returned a pg.
Definition pbind {A B} (m : P A) (k : A → P B) : P B :=
  fun pg => match m pg with
            | Returned a pg' => k a pg'
            | Thrown e pg' => Thrown e pg'
            end.

(** A step that only touches the variables. *)
Definition lift {A} (m : M A) : P A :=
  fun pg => match m (game pg) with
            | Normal a s => Returned a (mkPage s (screen pg))
            | Abrupt e s => Thrown e (mkPage s (screen pg))
            end.

(** A step that only draws; it may read the variables. *)
Definition render (f : state → view → view) : P unit :=
  fun pg => Returned tt (mkPage (game pg) (f (game pg) (screen pg))).

Declare Scope page_scope.
Delimit Scope page_scope with page.
Notation "x <- c1 ;; c2" := (pbind c1 (fun x => c2))
  (at level 100, c1 at next level, c2 at level 200, right associativity) : page_scope.
Notation "c1 ;; c2" := (pbind c1 (fun _ => c2))
  (at level 100, c2 at level 200, right associativity) : page_scope.

(** [for (const i of l) body(i)] *)
Definition for_each (l : list Z) (body : Z → P unit) : P unit :=
  foldr (fun i k => pbind (body i) (fun _ => k)) (pret tt) l.

Definition landed {A} (o : outcome A) : page :=
  match o with
  | Returned _ pg => pg
  | Thrown _ pg => pg
  end.

(** [showInvalidFeedback(cell, reason)] in full: the shake class is set,
    its removal is scheduled, the warning is printed. *)
Definition showInvalidFeedback_page (cell : option Z) (r : reason) : P unit :=
  (match cell with
   | None => lift (throw TypeError)
   | Some i =>
       render (fun _ => on_button i (set_invalid true)) ;;
       render (fun _ v => with_timers (timers v ++ [i]) v) ;;
       lift (p <- read currentPlayer ;; log (WarnInvalid r i p))%js
   end)%page.

Definition validateMove_page (idx : Z) : P bool :=
  (let cell := querySelector idx in
   processing <- lift (read isProcessing) ;;
   if processing then
     showInvalidFeedback_page cell Busy ;;
     pret false
   else
   fin <- lift (read finished) ;;
   if fin then
     showInvalidFeedback_page cell GameOver ;;
     lift (log LogFinished) ;;
     pret false
   else
   c <- lift (read cells) ;;
   if negb (strict_eq (JsArray.get c idx) Null) then
     showInvalidFeedback_page cell (CellOccupied (JsArray.get c idx)) ;;
     pret false
   else
     pret true)%page.

(** The click handler of the button with [data-index] [idx], in full.
    The [cell] of the handler is that button, so [cell.textContent = ...]
    is a write on the button with index [idx]. *)
Definition cellClick (idx : Z) : P unit :=
  (ok <- validateMove_page idx ;;
   if negb ok then pret tt else
   lift (update (with_isProcessing true)) ;;
   p <- lift (read currentPlayer) ;;
   lift (update (fun s => with_cells (JsArray.set (cells s) idx (Str p)) s)) ;;
   render (fun _ => on_button idx (set_text (Some p))) ;;
   lift (log (LogClicked idx p)) ;;
   r <- lift (read (fun s => checkWin (cells s))) ;;
   match r with
   | Some res =>
       match res with
       | Winner w (a, b, c) =>
           lift (log (LogWins w (a, b, c))) ;;
           for_each [a; b; c]
             (fun i => render (fun _ => on_button i (set_win true))) ;;
           render (fun _ => showResult (MsgWins w) TypeWin) ;;
           lift (update (fun s => with_score (score_incr w (score s)) s))
       | Draw =>
           lift (log LogDraw) ;;
           render (fun _ => showResult MsgDraw TypeDraw) ;;
           lift (update (fun s => with_score (draws_incr (score s)) s))
       end ;;
       lift (update (with_finished true)) ;;
       render (fun _ => setCellsDisabled true) ;;
       render updateScore
   | None =>
       lift (update (fun s => with_currentPlayer (toggle (currentPlayer s)) s)) ;;
       q <- lift (read currentPlayer) ;;
       lift (log (LogNext q)) ;;
       render updateStatus
   end ;;
   lift (update (with_isProcessing false)))%page.

(** The click handler of the Reset button, in full. *)
Definition resetClick : P unit :=
  (for_each (seqZ 0 9)
     (fun i =>
        lift (update (fun s => with_cells (JsArray.set (cells s) i Null) s)) ;;
        render (fun _ =>
          on_button i (fun b => set_invalid false (set_win false (set_text None b))))) ;;
   lift (update (with_finished false)) ;;
   lift (update (with_isProcessing false)) ;;
   lift (update (with_currentPlayer X)) ;;
   render (fun _ => setCellsDisabled false) ;;
   render hideResult ;;
   render updateStatus ;;
   lift (log LogReset))%page.

(** The callback of [setTimeout] in [showInvalidFeedback]: the oldest
    pending timeout runs and takes the shake class off its button.  All
    timeouts have the same delay, so they run in the order they were
    set. *)
Definition invalidTimeout : P unit :=
  render (fun _ v =>
    match timers v with
    | [] => v
    | i :: rest => with_timers rest (on_button i (set_invalid false) v)
    end).

(** The page when it has loaded: nine new buttons, the banner hidden,
    then [setCellsDisabled(false)], [updateStatus()], [updateScore()]. *)
Definition created : view :=
  mkView (replicate 9%nat new_button) None None false None false 0 0 0 [].

Definition loaded : page :=
  mkPage init (updateScore init (updateStatus init (setCellsDisabled false created))).

(** What can happen on the page.  As in the sessions of the game, a
    click may reach a disabled button; a timeout that fires with none
    pending does nothing. *)
Inductive event : Set :=
| Click (idx : Z)
| ClickReset
| TimerFires.

Definition handle (e : event) (pg : page) : page :=
  match e with
  | Click idx => landed (cellClick idx pg)
  | ClickReset => landed (resetClick pg)
  | TimerFires => landed (invalidTimeout pg)
  end.

Definition browse (evs : list event) (pg : page) : page :=
  foldl (fun p e => handle e p) pg evs.

(** The clicks and resets among the events. *)
Definition ops_of (evs : list event) : list op :=
  omap (fun e => match e with
                 | Click idx => Some (Move idx)
                 | ClickReset => Some ResetGame
                 | TimerFires => None
                 end) evs.

(** * Vocabulary of the properties *)

(** ** Boards *)

(** The three cells of combination [w] all hold the mark of [p]. *)
Definition holds (c : JsArray.t) (w : combo) (p : player) : Prop :=
  JsArray.get c w.1.1 = Str p ∧
  JsArray.get c w.1.2 = Str p ∧
  JsArray.get c w.2 = Str p.

(** No combination of [wins] is held by a player. *)
Definition no_win (c : JsArray.t) : Prop :=
  ∀ w p, w ∈ wins → ¬ holds c w p.

(** A board: nine cells, each empty or marked. *)
Definition is_board (c : JsArray.t) : Prop :=
  JsArray.length c = 9 ∧
  ∀ i, 0 ≤ i < 9 → JsArray.get c i = Null ∨ ∃ p, JsArray.get c i = Str p.

(** Every cell of the board is marked. *)
Definition full (c : JsArray.t) : Prop :=
  ∀ i, 0 ≤ i < 9 → JsArray.get c i ≠ Null.

(** Some cell of the board is empty. *)
Definition has_empty (c : JsArray.t) : Prop :=
  ∃ i, 0 ≤ i < 9 ∧ JsArray.get c i = Null.

(** A dense array of nine cells and nothing else: what
    [Array(9).fill(null)] builds and the handlers keep. *)
Definition nine_cells (c : JsArray.t) : Prop :=
  is_board c ∧ ∀ i, ¬ (0 ≤ i < 9) → JsArray.props c !! i = None.

(** Writing one value over a list of indices, as [fill] and the loop of
    the reset handler do. *)
Definition write_all (v : value) (c : JsArray.t) (l : list Z) : JsArray.t :=
  foldl (fun a i => JsArray.set a i v) c l.

(** The nine cells of a state, in order. *)
Definition board_of (s : state) : list value :=
  map (JsArray.get (cells s)) (seqZ 0 9).

(** ** Turned-down clicks *)

(** The precondition checks as the specification words them: [Busy] if
    the lock is held, else [GameOver] if the game is not in progress,
    else [CellOccupied] with the occupant if the target cell is not
    empty; [None] when all three pass. *)
Definition rejection (idx : Z) (s : state) : option reason :=
  if isProcessing s then Some Busy
  else if finished s then Some GameOver
  else if bool_decide (JsArray.get (cells s) idx = Null) then None
  else Some (CellOccupied (JsArray.get (cells s) idx)).

(** What a turned-down click on button [i] leaves on the console. *)
Definition feedback (r : reason) (i : Z) (s : state) : list line :=
  match r with
  | GameOver => [WarnInvalid r i (currentPlayer s); LogFinished]
  | Busy | CellOccupied _ => [WarnInvalid r i (currentPlayer s)]
  end.

(** The state after a turned-down click on button [i]: the state
    before, with the report on the console. *)
Definition reported (r : reason) (i : Z) (s : state) : state :=
  with_console (console s ++ feedback r i s) s.

(** ** Scores *)

(** No counter of [b] is below the one of [a]. *)
Definition scores_le (a b : scores) : Prop :=
  (score_X a ≤ score_X b)%nat ∧
  (score_O a ≤ score_O b)%nat ∧
  (score_draws a ≤ score_draws b)%nat.

(** ** Turns *)

(** The marks placed in the current game, oldest first, as the console
    records them: every accepted click prints its mover, and the reset
    handler prints the start of a new game. *)
Definition record_line (g : list player) (l : line) : list player :=
  match l with
  | LogReset => []
  | LogClicked _ p => g ++ [p]
  | _ => g
  end.

Definition movers (out : list line) : list player := foldl record_line [] out.

(** [p], then the other player, then [p] again, and so on. *)
Fixpoint alternating (p : player) (g : list player) : Prop :=
  match g with
  | [] => True
  | q :: g' => q = p ∧ alternating (toggle p) g'
  end.

(** Who moves after [n] moves of a game that [p] started. *)
Definition turn (p : player) (n : nat) : player := Nat.iter n toggle p.

(** The mover of the [n]-th move of a game, counting from 0: X on the
    even moves, O on the odd ones. *)
Definition nth_mover (n : nat) : player := if Nat.even n then X else O.


(** The turn invariant of a session: the marks of the current game
    alternate from X, and while the game is in progress the player to
    move is the one whose turn it is. *)
Definition turn_inv (s : state) : Prop :=
  alternating X (movers (console s)) ∧
  (finished s = false →
   currentPlayer s = turn X (List.length (movers (console s)))).

(** ** Sample boards and states *)

(** A board with two complete rows: X on the top row, O on the middle. *)
Definition two_rows : JsArray.t :=
  JsArray.of_list [Str X; Str X; Str X; Str O; Str O; Str O; Null; Null; Null].

(** The draw of the specification's example: X and O alternate on the
    cells 0, 1, 2, 4, 3, 5, 7, 6, 8. *)
Definition drawn_board : JsArray.t :=
  JsArray.of_list [Str X; Str O; Str X; Str X; Str O; Str O; Str O; Str X; Str X].

(** A game under way: X in the centre, O in a corner. *)
Definition open_board : JsArray.t :=
  JsArray.of_list [Str O; Null; Null; Null; Str X; Null; Null; Null; Null].

(** X has taken the top-left corner and the game is over (as if won). *)
Definition corner_taken_over : state :=
  with_finished true (final (applyMove 0 init)).

(** ** Games within a session *)

(** A click, as opposed to a reset. *)
Definition is_move (o : op) : bool :=
  match o with
  | Move _ => true
  | ResetGame => false
  end.

(** The number of games the score counts. *)
Definition games_scored (sc : scores) : nat :=
  (score_X sc + score_O sc + score_draws sc)%nat.

(** How often [x] occurs in [l]. *)
Fixpoint occurrences {A} `{EqDecision A} (x : A) (l : list A) : nat :=
  match l with
  | [] => 0%nat
  | y :: l' => ((if decide (y = x) then 1 else 0) + occurrences x l')%nat
  end.

(** What [checkWin] says of the board agrees with [finished], and a
    winner on the board is the player who moved last. *)
Definition status_inv (s : state) : Prop :=
  finished s = match checkWin (cells s) with Some _ => true | None => false end ∧
  (∀ w cb, checkWin (cells s) = Some (Winner w cb) → w = currentPlayer s).

(** The marks on the board are the marks placed in the current game. *)
Definition marks_inv (s : state) : Prop :=
  ∀ p, occurrences (Str p) (board_of s) = occurrences p (movers (console s)).

(** ** What the page should show *)

(** The button with index [i]. *)
Definition button_at (v : view) (i : Z) : button :=
  default new_button (buttons v !! Z.to_nat i).

(** The text of a button whose cell holds [x]. *)
Definition mark_of (x : value) : option player :=
  match x with
  | Str p => Some p
  | Undefined | Null => None
  end.

(** Whether cell [i] is on the winning combination of a finished game. *)
Definition lit (s : state) (i : Z) : bool :=
  if finished s then
    match checkWin (cells s) with
    | Some (Winner _ (a, b, c)) => bool_decide (i = a ∨ i = b ∨ i = c)
    | Some Draw | None => false
    end
  else false.

(** The banner that announces a result. *)
Definition announced (r : option result) : option message :=
  match r with
  | Some (Winner w _) => Some (MsgWins w)
  | Some Draw => Some MsgDraw
  | None => None
  end.

Definition announced_type (r : option result) : option banner_type :=
  match r with
  | Some (Winner _ _) => Some TypeWin
  | Some Draw => Some TypeDraw
  | None => None
  end.

(** The screen after an accepted click on [idx], drawn from the
    variables [s] before the click. *)
Definition click_view (idx : Z) (s : state) (v : view) : view :=
  let p := currentPlayer s in
  let c := JsArray.set (cells s) idx (Str p) in
  let v1 := on_button idx (set_text (Some p)) v in
  match checkWin c with
  | Some (Winner w (a, b, d)) =>
      updateScore (with_score (score_incr w (score s)) s)
        (setCellsDisabled true
           (showResult (MsgWins w) TypeWin
              (on_button d (set_win true)
                 (on_button b (set_win true)
                    (on_button a (set_win true) v1)))))
  | Some Draw =>
      updateScore (with_score (draws_incr (score s)) s)
        (setCellsDisabled true (showResult MsgDraw TypeDraw v1))
  | None =>
      updateStatus (with_currentPlayer (toggle p) s) v1
  end.

(** The screen after a turned-down click on button [i]. *)
Definition shake_view (i : Z) (v : view) : view :=
  with_timers (timers v ++ [i]) (on_button i (set_invalid true) v).

(** What [textContent = ''] and [classList.remove(...)] of the reset
    handler leave of a button. *)
Definition wiped (b : button) : button :=
  set_invalid false (set_win false (set_text None b)).

(** The screen after a reset, drawn from the variables [s] before it. *)
Definition reset_view (s : state) (v : view) : view :=
  let cleared := foldl (fun u i => on_button i wiped u) v (seqZ 0 9) in
  updateStatus (final (reset s))
    (hideResult (final (reset s)) (setCellsDisabled false cleared)).

(** The screen follows the variables: what each element shows is what
    the variables say. *)
Definition view_inv (pg : page) : Prop :=
  let s := game pg in
  let v := screen pg in
  List.length (buttons v) = 9%nat ∧
  (∀ i, 0 ≤ i < 9 →
     textContent (button_at v i) = mark_of (JsArray.get (cells s) i) ∧
     disabled (button_at v i) = finished s ∧
     cell_win (button_at v i) = lit s i ∧
     (cell_invalid (button_at v i) = true → i ∈ timers v)) ∧
  banner_shown v = finished s ∧
  status_hidden v = finished s ∧
  (finished s = true →
     banner_text v = announced (checkWin (cells s)) ∧
     banner_class v = announced_type (checkWin (cells s))) ∧
  (finished s = false → status_text v = Some (currentPlayer s)) ∧
  shown_X v = score_X (score s) ∧
  shown_O v = score_O (score s) ∧
  shown_draws v = score_draws (score s).

(** * Properties *)

(** ** Array reads after writes *)

Lemma get_set_eq (a : JsArray.t) (i : Z) (v : value) :
  JsArray.get (JsArray.set a i v) i = v.
Proof. unfold JsArray.get, JsArray.set; simpl. by rewrite lookup_insert_eq. Qed.

Lemma get_set_ne (a : JsArray.t) (i j : Z) (v : value) :
  i ≠ j → JsArray.get (JsArray.set a i v) j = JsArray.get a j.
Proof.
  intros Hne. unfold JsArray.get, JsArray.set; simpl.
  by rewrite lookup_insert_ne.
Qed.

Lemma strict_eq_true (v w : value) : strict_eq v w = true ↔ v = w.
Proof. unfold strict_eq. apply bool_decide_eq_true. Qed.

(** ** Win and draw evaluation *)

Lemma line_test_holds (c : JsArray.t) (w : combo) :
  line_test c w = true ↔ ∃ p, holds c w p.
Proof.
  destruct w as [[a b] d]. unfold line_test, holds; simpl.
  rewrite !andb_true_iff, !strict_eq_true. split.
  - intros [[Ht Hb] Hd].
    destruct (JsArray.get c a) as [| |p] eqn:Ha; try discriminate.
    exists p. by rewrite <- Hb, <- Hd.
  - intros [p (Ha & Hb & Hd)]. rewrite Ha, Hb, Hd. done.
Qed.

Lemma line_test_fails (c : JsArray.t) (w : combo) :
  (∀ p, ¬ holds c w p) → line_test c w = false.
Proof.
  intros Hno. destruct (line_test c w) eqn:Ht; [|done].
  apply line_test_holds in Ht as [p Hp]. by destruct (Hno p).
Qed.

(** One round of the loop, in terms of its condition. *)
Lemma scan_cons (c : JsArray.t) (w : combo) (ws : list combo) :
  scan c (w :: ws) =
    if line_test c w
    then match JsArray.get c w.1.1 with
         | Str p => Some (Winner p w)
         | Undefined | Null => None
         end
    else scan c ws.
Proof.
  destruct w as [[a b] d]. cbn [scan line_test fst snd].
  by destruct (JsArray.get c a).
Qed.

Lemma scan_none (c : JsArray.t) (ws : list combo) :
  (∀ w p, w ∈ ws → ¬ holds c w p) → scan c ws = None.
Proof.
  induction ws as [|w ws IH]; intros Hno; [done|].
  rewrite scan_cons, line_test_fails.
  - apply IH. intros u q Hu. apply Hno. by right.
  - intros p. apply Hno. by left.
Qed.

Lemma scan_first (c : JsArray.t) (ws : list combo) (w : combo) (p : player) :
  w ∈ ws → holds c w p →
  ∃ pre w' p' post,
    ws = pre ++ w' :: post ∧
    (∀ u q, u ∈ pre → ¬ holds c u q) ∧
    holds c w' p' ∧
    scan c ws = Some (Winner p' w') ∧
    ((w' = w ∧ p' = p) ∨ w ∈ post).
Proof.
  induction ws as [|u ws IH]; intros Hin Hw; [by apply elem_of_nil in Hin|].
  rewrite scan_cons. destruct (line_test c u) eqn:Ht.
  - apply line_test_holds in Ht as [q Hq].
    exists [], u, q, ws. simpl. destruct Hq as (Ha & Hb & Hd).
    rewrite Ha. repeat split; try done.
    + intros ? ? Hnil. by apply elem_of_nil in Hnil.
    + apply elem_of_cons in Hin as [->|Hin]; [left|by right].
      split; [done|]. destruct Hw as (Ha' & _). congruence.
  - apply elem_of_cons in Hin as [->|Hin].
    + assert (line_test c u = true) by (apply line_test_holds; eauto).
      congruence.
    + destruct (IH Hin Hw) as (pre & w' & p' & post & -> & Hpre & Hw' & Hs & Hor).
      exists (u :: pre), w', p', post. split_and!; try done.
      intros v q Hv Hh. apply elem_of_cons in Hv as [->|Hv].
      * assert (line_test c u = true) by (apply line_test_holds; eauto).
        congruence.
      * by apply (Hpre v q).
Qed.

(** C1.  [wins] lists the rows top to bottom, then the columns left to
    right, then the two diagonals.  On every board on which some
    combination [w] of [wins] holds three equal marks, [checkWin]
    reports a winner with a combination: the first combination in that
    order whose three cells hold one mark, with that mark as the winner.
    It is [w] itself unless another such combination comes before it. *)
Theorem checkWin_reports_first_winning_triple
    (c : JsArray.t) (w : combo) (p : player) :
  w ∈ wins → holds c w p →
  wins = [(0,1,2); (3,4,5); (6,7,8)] ++ [(0,3,6); (1,4,7); (2,5,8)]
         ++ [(0,4,8); (2,4,6)] ∧
  ∃ pre w' p' post,
    wins = pre ++ w' :: post ∧
    (∀ u q, u ∈ pre → ¬ holds c u q) ∧
    holds c w' p' ∧
    checkWin c = Some (Winner p' w') ∧
    ((w' = w ∧ p' = p) ∨ w ∈ post).
Proof.
  intros Hin Hw. split; [reflexivity|].
  destruct (scan_first c wins w p Hin Hw)
    as (pre & w' & p' & post & Hsplit & Hpre & Hw' & Hs & Hor).
  exists pre, w', p', post. unfold checkWin. rewrite Hs. done.
Qed.

Lemma checkWin_reports_first_winning_triple_witness :
  wins = [(0,1,2); (3,4,5); (6,7,8)] ++ [(0,3,6); (1,4,7); (2,5,8)]
         ++ [(0,4,8); (2,4,6)] ∧
  ∃ pre w' p' post,
    wins = pre ++ w' :: post ∧
    (∀ u q, u ∈ pre → ¬ holds two_rows u q) ∧
    holds two_rows w' p' ∧
    checkWin two_rows = Some (Winner p' w') ∧
    ((w' = (3,4,5) ∧ p' = O) ∨ (3,4,5) ∈ post).
Proof.
  apply (checkWin_reports_first_winning_triple two_rows (3,4,5) O).
  - unfold wins. repeat constructor.
  - vm_compute. auto.
Defined.

Lemma every_truthy_full (c : JsArray.t) :
  is_board c → full c → JsArray.every truthy c = true.
Proof.
  intros [Hlen Hcells] Hfull. unfold JsArray.every.
  apply forallb_forall. intros i Hi.
  apply list_elem_of_In, elem_of_seqZ in Hi. rewrite Hlen in Hi.
  assert (Hr : 0 ≤ i < 9) by lia.
  specialize (Hcells i Hr). specialize (Hfull i Hr).
  unfold JsArray.get in *. destruct (JsArray.props c !! i) as [v|]; [|done].
  simpl in *. destruct Hcells as [->|[p ->]]; done.
Qed.

Lemma every_truthy_empty (c : JsArray.t) :
  is_board c → has_empty c → JsArray.every truthy c = false.
Proof.
  intros [Hlen _] (i & Hr & Hi). unfold JsArray.every.
  apply not_true_iff_false. intros Hall.
  rewrite forallb_forall in Hall.
  assert (Hin : In i (seqZ 0 (JsArray.length c))).
  { apply list_elem_of_In, elem_of_seqZ. lia. }
  specialize (Hall i Hin). unfold JsArray.get in Hi.
  destruct (JsArray.props c !! i) as [v|]; simpl in Hi; [|done].
  by subst v.
Qed.

(** C2.  On a board without a winning combination, [checkWin] reports a
    draw when all nine cells are marked, and reports nothing (the game
    continues) when some cell is empty. *)
Theorem checkWin_draw_or_continue (c : JsArray.t) :
  is_board c → no_win c →
  (full c → checkWin c = Some Draw) ∧
  (has_empty c → checkWin c = None).
Proof.
  intros Hb Hno. unfold checkWin. rewrite (scan_none c wins Hno).
  split; intros H.
  - by rewrite every_truthy_full.
  - by rewrite every_truthy_empty.
Qed.

Ltac cell_cases i H :=
  assert (i = 0 ∨ i = 1 ∨ i = 2 ∨ i = 3 ∨ i = 4 ∨ i = 5 ∨ i = 6 ∨ i = 7 ∨ i = 8)
    as Hcases by lia;
  clear H; repeat (destruct Hcases as [->|Hcases]); [..|subst i].

Ltac board_facts :=
  match goal with
  | |- is_board _ =>
      split; [reflexivity|];
      let i := fresh "i" in let H := fresh "H" in
      intros i H; cell_cases i H; vm_compute; eauto
  | |- no_win _ =>
      let w := fresh "w" in let p := fresh "p" in
      let Hin := fresh "Hin" in let Hh := fresh "Hh" in
      intros w p Hin Hh; unfold wins in Hin;
      repeat (apply elem_of_cons in Hin as [->|Hin]);
      [..|by apply elem_of_nil in Hin];
      destruct p; vm_compute in Hh; destruct Hh as (? & ? & ?); discriminate
  | |- full _ =>
      let i := fresh "i" in let H := fresh "H" in
      intros i H; cell_cases i H; vm_compute; discriminate
  end.

Lemma checkWin_draw_or_continue_witness :
  checkWin drawn_board = Some Draw ∧ checkWin open_board = None.
Proof.
  split.
  - apply (checkWin_draw_or_continue drawn_board); board_facts.
  - apply (checkWin_draw_or_continue open_board); [board_facts..|].
    exists 1. split; [lia|reflexivity].
Defined.

(** ** Validation of a move *)

Ltac unfold_m :=
  unfold showInvalidFeedback, log, bind, ret, read, update, throw.

Ltac unfold_with :=
  unfold with_cells, with_currentPlayer, with_finished, with_isProcessing,
    with_score, with_console.

Lemma state_eta (s : state) :
  mkState (cells s) (currentPlayer s) (finished s) (isProcessing s)
          (score s) (console s) = s.
Proof. by destruct s. Qed.

(** [validateMove] against the specification's wording, for any index:
    when the lookup finds the button the failure is reported and
    [false] returned; when it finds none the report itself throws. *)
Lemma validateMove_rejection (idx : Z) (s : state) :
  validateMove idx s =
    match rejection idx s with
    | Some r =>
        match querySelector idx with
        | Some i => Normal false (reported r i s)
        | None => Abrupt TypeError s
        end
    | None => Normal true s
    end.
Proof.
  unfold validateMove, rejection, reported, feedback, strict_eq. unfold_m.
  destruct (isProcessing s) eqn:Hp; simpl.
  { destruct (querySelector idx); simpl; [|done]. done. }
  destruct (finished s) eqn:Hf; simpl.
  { destruct (querySelector idx); simpl; [|done].
    unfold with_console; simpl. by rewrite <- app_assoc. }
  destruct (bool_decide (JsArray.get (cells s) idx = Null)); simpl; [done|].
  destruct (querySelector idx); simpl; done.
Qed.

Lemma querySelector_board (idx : Z) :
  0 ≤ idx < 9 → querySelector idx = Some idx.
Proof. intros H. unfold querySelector. by rewrite bool_decide_eq_true_2. Qed.

Lemma querySelector_off_board (idx : Z) :
  ¬ (0 ≤ idx < 9) → querySelector idx = None.
Proof. intros H. unfold querySelector. by rewrite bool_decide_eq_false_2. Qed.

(** The accepted part of the click handler always returns. *)
Lemma placeAndEvaluate_returns (idx : Z) (s : state) :
  ∃ s', placeAndEvaluate idx s = Normal tt s'.
Proof.
  unfold placeAndEvaluate. unfold_m. simpl.
  destruct (checkWin _) as [[w c|]|]; simpl; eauto.
Qed.

(** The click handler, case by case. *)
Lemma applyMove_rejected (idx : Z) (s : state) (r : reason) :
  rejection idx s = Some r →
  applyMove idx s =
    match querySelector idx with
    | Some i => Normal tt (reported r i s)
    | None => Abrupt TypeError s
    end.
Proof.
  intros Hr. unfold applyMove, bind at 1.
  rewrite validateMove_rejection, Hr.
  by destruct (querySelector idx).
Qed.

Lemma applyMove_accepted (idx : Z) (s : state) :
  rejection idx s = None →
  applyMove idx s =
    (update (with_isProcessing true) ;;
     placeAndEvaluate idx ;;
     update (with_isProcessing false)) s.
Proof.
  intros Hr. unfold applyMove, bind at 1.
  by rewrite validateMove_rejection, Hr.
Qed.

Lemma rejection_None (idx : Z) (s : state) :
  rejection idx s = None ↔
  isProcessing s = false ∧ finished s = false ∧ JsArray.get (cells s) idx = Null.
Proof.
  unfold rejection.
  destruct (isProcessing s), (finished s); try (split; [done|intros (?&?&?); done]).
  case_bool_decide; split; try done. by intros (_ & _ & ?).
Qed.

(** The board after an accepted move. *)
Lemma applyMove_accepted_cells (idx : Z) (s : state) :
  rejection idx s = None →
  cells (final (applyMove idx s)) =
    JsArray.set (cells s) idx (Str (currentPlayer s)).
Proof.
  intros Hr. rewrite applyMove_accepted by done.
  unfold placeAndEvaluate. unfold_m. simpl.
  destruct (checkWin _) as [[w c|]|]; simpl; done.
Qed.

Lemma applyMove_rejected_final (idx : Z) (s : state) (r : reason) :
  rejection idx s = Some r →
  ∃ l, final (applyMove idx s) = with_console (console s ++ l) s.
Proof.
  intros Hr. rewrite (applyMove_rejected idx s r Hr).
  destruct (querySelector idx) as [i|]; simpl.
  - by exists (feedback r i s).
  - exists []. unfold with_console. by rewrite app_nil_r, state_eta.
Qed.

(** C3.  On a button of the board, [validateMove] checks lock, game
    over, occupied cell in that order and reports the first that fails:
    it returns [false] after reporting the reason the specification
    names, and [true], with nothing reported, when all three pass.  The
    handler changes the board exactly when all three pass. *)
Theorem validateMove_first_failure_wins (idx : Z) (s : state) :
  0 ≤ idx < 9 →
  validateMove idx s =
    match rejection idx s with
    | Some r => Normal false (reported r idx s)
    | None => Normal true s
    end ∧
  (rejection idx s = None ↔ cells (final (applyMove idx s)) ≠ cells s).
Proof.
  intros Hidx. split.
  - rewrite validateMove_rejection, querySelector_board by done. done.
  - split.
    + intros Hr. rewrite applyMove_accepted_cells by done.
      apply rejection_None in Hr as (_ & _ & Hnull).
      intros Heq. apply (f_equal (fun a => JsArray.get a idx)) in Heq.
      rewrite get_set_eq, Hnull in Heq. discriminate.
    + intros Hne. destruct (rejection idx s) as [r|] eqn:Hr; [|done].
      destruct (applyMove_rejected_final idx s r Hr) as [l Hl].
      rewrite Hl in Hne. by destruct Hne.
Qed.

Lemma validateMove_first_failure_wins_witness :
  validateMove 0 corner_taken_over =
    match rejection 0 corner_taken_over with
    | Some r => Normal false (reported r 0 corner_taken_over)
    | None => Normal true corner_taken_over
    end ∧
  (rejection 0 corner_taken_over = None ↔
   cells (final (applyMove 0 corner_taken_over)) ≠ cells corner_taken_over).
Proof. apply (validateMove_first_failure_wins 0 corner_taken_over). lia. Defined.

(** C4.  A click that fails a precondition, whichever it is, leaves the
    board, the player to move, the game status and the three counters
    as they were. *)
Theorem failed_move_changes_nothing (idx : Z) (s : state) (r : reason) :
  rejection idx s = Some r →
  cells (final (applyMove idx s)) = cells s ∧
  currentPlayer (final (applyMove idx s)) = currentPlayer s ∧
  finished (final (applyMove idx s)) = finished s ∧
  score (final (applyMove idx s)) = score s.
Proof.
  intros Hr. destruct (applyMove_rejected_final idx s r Hr) as [l ->]. done.
Qed.

Lemma failed_move_changes_nothing_witness :
  cells (final (applyMove 0 corner_taken_over)) = cells corner_taken_over ∧
  currentPlayer (final (applyMove 0 corner_taken_over))
    = currentPlayer corner_taken_over ∧
  finished (final (applyMove 0 corner_taken_over)) = finished corner_taken_over ∧
  score (final (applyMove 0 corner_taken_over)) = score corner_taken_over.
Proof.
  apply (failed_move_changes_nothing 0 corner_taken_over GameOver).
  reflexivity.
Defined.

(** ** The board stays a nine-cell array *)

Lemma write_all_lookup (v : value) (l : list Z) (c : JsArray.t) (j : Z) :
  JsArray.props (write_all v c l) !! j =
    if bool_decide (j ∈ l) then Some v else JsArray.props c !! j.
Proof.
  revert c. induction l as [|i l IH]; intros c.
  - by rewrite bool_decide_eq_false_2 by apply not_elem_of_nil.
  - change (write_all v c (i :: l)) with (write_all v (JsArray.set c i v) l).
    rewrite IH. destruct (decide (j ∈ l)) as [Hl|Hl].
    + rewrite !bool_decide_eq_true_2; [done|by right|done].
    + rewrite (bool_decide_eq_false_2 (j ∈ l)) by done. simpl.
      destruct (decide (i = j)) as [->|Hne].
      * rewrite lookup_insert_eq, bool_decide_eq_true_2; [done|by left].
      * rewrite lookup_insert_ne by done.
        rewrite bool_decide_eq_false_2; [done|].
        intros [?|?]%elem_of_cons; congruence.
Qed.

Lemma write_all_length (v : value) (l : list Z) (c : JsArray.t) :
  (∀ i, i ∈ l → i < JsArray.length c) →
  JsArray.length (write_all v c l) = JsArray.length c.
Proof.
  revert c. induction l as [|i l IH]; intros c Hl; simpl; [done|].
  assert (Hi : i < JsArray.length c) by (apply Hl; by left).
  assert (Hset : JsArray.length (JsArray.set c i v) = JsArray.length c).
  { simpl. rewrite bool_decide_eq_false_2; [done|lia]. }
  rewrite IH; [done|]. intros k Hk. rewrite Hset. apply Hl. by right.
Qed.

Lemma nine_cells_off_board (c : JsArray.t) (i : Z) :
  nine_cells c → ¬ (0 ≤ i < 9) → JsArray.get c i = Undefined.
Proof. intros [_ Hout] Hi. unfold JsArray.get. by rewrite Hout. Qed.

Lemma nine_cells_null_on_board (c : JsArray.t) (i : Z) :
  nine_cells c → JsArray.get c i = Null → 0 ≤ i < 9.
Proof.
  intros Hc Hnull. destruct (decide (0 ≤ i < 9)) as [|Hout]; [done|].
  rewrite (nine_cells_off_board c i Hc Hout) in Hnull. discriminate.
Qed.

Lemma nine_cells_props (c : JsArray.t) (i : Z) :
  nine_cells c → 0 ≤ i < 9 → JsArray.props c !! i = Some (JsArray.get c i).
Proof.
  intros [[_ Hin] _] Hi. specialize (Hin i Hi). unfold JsArray.get in *.
  destruct (JsArray.props c !! i); simpl in *; [done|].
  destruct Hin as [?|[? ?]]; discriminate.
Qed.

Lemma nine_cells_set (c : JsArray.t) (i : Z) (v : value) :
  nine_cells c → 0 ≤ i < 9 → v = Null ∨ (∃ p, v = Str p) →
  nine_cells (JsArray.set c i v).
Proof.
  intros [[Hlen Hin] Hout] Hi Hv. split; [split|].
  - simpl. rewrite bool_decide_eq_false_2; [done|lia].
  - intros j Hj. destruct (decide (i = j)) as [->|Hne].
    + by rewrite get_set_eq.
    + rewrite get_set_ne by done. by apply Hin.
  - intros j Hj. simpl. rewrite lookup_insert_ne by lia. by apply Hout.
Qed.

Lemma seqZ_0_9 : seqZ 0 9 = [0; 1; 2; 3; 4; 5; 6; 7; 8].
Proof. reflexivity. Qed.

Lemma elem_of_seqZ_0_9 (i : Z) : i ∈ seqZ 0 9 ↔ 0 ≤ i < 9.
Proof. rewrite elem_of_seqZ. lia. Qed.

(** Two nine-cell arrays with the same cells are the same array. *)
Lemma nine_cells_ext (c d : JsArray.t) :
  nine_cells c → nine_cells d →
  (∀ i, 0 ≤ i < 9 → JsArray.get c i = JsArray.get d i) → c = d.
Proof.
  intros Hc Hd Heq.
  destruct c as [pc lc], d as [pd ld].
  assert (lc = ld) as ->.
  { destruct Hc as [[Hl _] _], Hd as [[Hl' _] _]. simpl in *. congruence. }
  f_equal. apply map_eq. intros i.
  destruct (decide (0 ≤ i < 9)) as [Hi|Hi].
  - pose proof (nine_cells_props _ i Hc Hi) as H1.
    pose proof (nine_cells_props _ i Hd Hi) as H2.
    simpl in *. rewrite H1, H2. f_equal. by apply Heq.
  - destruct Hc as [_ Hc], Hd as [_ Hd]. simpl in *.
    by rewrite Hc, Hd.
Qed.

Lemma init_cells_get (i : Z) :
  JsArray.get (cells init) i = if bool_decide (0 ≤ i < 9) then Null else Undefined.
Proof.
  unfold JsArray.get. change (cells init) with (write_all Null (JsArray.Array 9) (seqZ 0 9)).
  rewrite write_all_lookup.
  destruct (decide (0 ≤ i < 9)) as [Hi|Hi].
  - rewrite !bool_decide_eq_true_2; [done|done|by apply elem_of_seqZ_0_9].
  - rewrite !bool_decide_eq_false_2; [done|done|by rewrite elem_of_seqZ_0_9].
Qed.

Lemma init_nine_cells : nine_cells (cells init).
Proof.
  split; [split|].
  - reflexivity.
  - intros i Hi. left. by rewrite init_cells_get, bool_decide_eq_true_2.
  - intros i Hi.
    change (cells init) with (write_all Null (JsArray.Array 9) (seqZ 0 9)).
    rewrite write_all_lookup, bool_decide_eq_false_2; [done|].
    by rewrite elem_of_seqZ_0_9.
Qed.

(** The state the reset handler leaves. *)
Lemma reset_final (s : state) :
  reset s =
    Normal tt
      (mkState (write_all Null (cells s) (seqZ 0 9)) X false false (score s)
               (console s ++ [LogReset])).
Proof. reflexivity. Qed.

Lemma reset_cells_get (s : state) (i : Z) :
  JsArray.get (cells (final (reset s))) i =
    if bool_decide (0 ≤ i < 9) then Null else JsArray.get (cells s) i.
Proof.
  rewrite reset_final. cbn [final cells]. unfold JsArray.get. rewrite write_all_lookup.
  destruct (decide (0 ≤ i < 9)) as [Hi|Hi].
  - rewrite !bool_decide_eq_true_2; [done|done|by apply elem_of_seqZ_0_9].
  - rewrite !bool_decide_eq_false_2; [done|done|by rewrite elem_of_seqZ_0_9].
Qed.

Lemma reset_nine_cells (s : state) :
  nine_cells (cells s) → nine_cells (cells (final (reset s))).
Proof.
  intros Hc. pose proof Hc as [[Hlen Hin] Hout].
  split; [split|].
  - rewrite reset_final. cbn [final cells]. rewrite write_all_length; [done|].
    intros i Hi%elem_of_seqZ_0_9. lia.
  - intros i Hi. left. by rewrite reset_cells_get, bool_decide_eq_true_2.
  - intros i Hi. rewrite reset_final. cbn [final cells].
    rewrite write_all_lookup, bool_decide_eq_false_2; [by apply Hout|].
    by rewrite elem_of_seqZ_0_9.
Qed.

Lemma applyMove_nine_cells (idx : Z) (s : state) :
  nine_cells (cells s) → nine_cells (cells (final (applyMove idx s))).
Proof.
  intros Hc. destruct (rejection idx s) as [r|] eqn:Hr.
  - destruct (applyMove_rejected_final idx s r Hr) as [l ->]. done.
  - rewrite applyMove_accepted_cells by done.
    apply nine_cells_set; [done| |eauto].
    apply rejection_None in Hr as (_ & _ & Hnull).
    by apply (nine_cells_null_on_board (cells s)).
Qed.

Lemma exec_nine_cells (o : op) (s : state) :
  nine_cells (cells s) → nine_cells (cells (exec o s)).
Proof.
  destruct o; simpl; [apply applyMove_nine_cells|apply reset_nine_cells].
Qed.

Lemma run_app (ops ops' : list op) (s : state) :
  run (ops ++ ops') s = run ops' (run ops s).
Proof. unfold run. apply foldl_app. Qed.

Lemma run_snoc (ops : list op) (o : op) (s : state) :
  run (ops ++ [o]) s = exec o (run ops s).
Proof. by rewrite run_app. Qed.

(** In every session the board is a nine-cell array. *)
Lemma run_nine_cells (ops : list op) : nine_cells (cells (run ops init)).
Proof.
  induction ops as [|o ops IH] using rev_ind.
  - apply init_nine_cells.
  - rewrite run_snoc. by apply exec_nine_cells.
Qed.

(** ** Reset *)

(** C5.  From every state the reset handler returns, and leaves the nine
    cells empty, X to move, the game in progress and the lock clear,
    with the three counters as they were.  In a session the board after
    a reset is the board the page started with. *)
Theorem reset_restores_start (s : state) (ops : list op) :
  reset s = Normal tt (final (reset s)) ∧
  board_of (final (reset s)) = replicate 9%nat Null ∧
  currentPlayer (final (reset s)) = X ∧
  finished (final (reset s)) = false ∧
  isProcessing (final (reset s)) = false ∧
  score (final (reset s)) = score s ∧
  cells (exec ResetGame (run ops init)) = cells init.
Proof.
  split_and!; try reflexivity.
  - unfold board_of. rewrite seqZ_0_9. cbn [map].
    rewrite !reset_cells_get. reflexivity.
  - apply nine_cells_ext.
    + apply reset_nine_cells, run_nine_cells.
    + apply init_nine_cells.
    + intros i Hi. cbn [exec]. rewrite reset_cells_get, init_cells_get.
      by rewrite bool_decide_eq_true_2.
Qed.

(** ** What a move does to the board *)

(** C7.  An accepted click on index [idx] finds that cell empty and
    writes the mover's mark into it, and every other cell reads as
    before; a click that is turned down leaves the board as it was.
    Either way a cell that held a mark still holds it: only the reset
    handler empties cells. *)
Theorem move_marks_one_empty_cell (idx : Z) (s : state) :
  match rejection idx s with
  | None =>
      JsArray.get (cells s) idx = Null ∧
      JsArray.get (cells (final (applyMove idx s))) idx = Str (currentPlayer s) ∧
      (∀ j, j ≠ idx →
         JsArray.get (cells (final (applyMove idx s))) j = JsArray.get (cells s) j)
  | Some _ => cells (final (applyMove idx s)) = cells s
  end ∧
  (∀ j p, JsArray.get (cells s) j = Str p →
          JsArray.get (cells (final (applyMove idx s))) j = Str p).
Proof.
  destruct (rejection idx s) as [r|] eqn:Hr.
  - destruct (applyMove_rejected_final idx s r Hr) as [l ->]. done.
  - rewrite applyMove_accepted_cells by done.
    apply rejection_None in Hr as (_ & _ & Hnull).
    split_and!; [done|apply get_set_eq|intros; by apply get_set_ne|].
    intros j p Hj. rewrite get_set_ne; [done|]. congruence.
Qed.

(** ** The state after an accepted move *)

Lemma applyMove_accepted_final (idx : Z) (s : state) :
  rejection idx s = None →
  applyMove idx s =
    Normal tt
      (let p := currentPlayer s in
       let c := JsArray.set (cells s) idx (Str p) in
       match checkWin c with
       | Some (Winner w cb) =>
           mkState c p true false (score_incr w (score s))
                   (console s ++ [LogClicked idx p; LogWins w cb])
       | Some Draw =>
           mkState c p true false (draws_incr (score s))
                   (console s ++ [LogClicked idx p; LogDraw])
       | None =>
           mkState c (toggle p) false false (score s)
                   (console s ++ [LogClicked idx p; LogNext (toggle p)])
       end).
Proof.
  intros Hr. rewrite applyMove_accepted by done.
  apply rejection_None in Hr as (_ & Hf & _).
  unfold placeAndEvaluate. unfold_m. cbn.
  destruct (checkWin _) as [[w cb|]|]; cbn; unfold_with; cbn;
    rewrite ?Hf, <- ?app_assoc; done.
Qed.

(** The evaluation of an accepted move runs with the lock held. *)
Lemma placeAndEvaluate_keeps_lock (idx : Z) (s : state) :
  ∃ s', placeAndEvaluate idx s = Normal tt s' ∧ isProcessing s' = isProcessing s.
Proof.
  unfold placeAndEvaluate. unfold_m. cbn.
  destruct (checkWin _) as [[w cb|]|]; cbn; eauto.
Qed.

(** ** The lock *)

(** C9.  After every sequence of clicks and resets the lock is clear,
    and every reset leaves it clear.  A click that is accepted finds the
    lock clear, holds it while the move is placed and evaluated, and has
    released it when the handler returns; a click that is turned down
    does not touch it. *)
Theorem lock_released_after_every_operation
    (ops : list op) (idx : Z) (s : state) :
  isProcessing (run ops init) = false ∧
  isProcessing (final (reset s)) = false ∧
  match rejection idx s with
  | None =>
      isProcessing s = false ∧
      ∃ s1, placeAndEvaluate idx (with_isProcessing true s) = Normal tt s1 ∧
            isProcessing s1 = true ∧
            applyMove idx s = Normal tt (with_isProcessing false s1) ∧
            isProcessing (final (applyMove idx s)) = false
  | Some _ => isProcessing (final (applyMove idx s)) = isProcessing s
  end.
Proof.
  assert (Hmove : ∀ t,
    match rejection idx t with
    | None =>
        isProcessing t = false ∧
        ∃ s1, placeAndEvaluate idx (with_isProcessing true t) = Normal tt s1 ∧
              isProcessing s1 = true ∧
              applyMove idx t = Normal tt (with_isProcessing false s1) ∧
              isProcessing (final (applyMove idx t)) = false
    | Some _ => isProcessing (final (applyMove idx t)) = isProcessing t
    end).
  { intros t. destruct (rejection idx t) as [r|] eqn:Hr.
    - destruct (applyMove_rejected_final idx t r Hr) as [l ->]. done.
    - pose proof Hr as (Hp & _ & _)%rejection_None. split; [done|].
      destruct (placeAndEvaluate_keeps_lock idx (with_isProcessing true t))
        as (s1 & Hs1 & Hlock).
      exists s1. rewrite applyMove_accepted by done. unfold_m.
      rewrite Hs1. done. }
  split_and!; [|reflexivity|apply Hmove].
  induction ops as [|o ops IH] using rev_ind; [reflexivity|].
  rewrite run_snoc. destruct o as [i|]; cbn [exec]; [|reflexivity].
  clear Hmove.
  destruct (rejection i (run ops init)) as [r|] eqn:Hr.
  - destruct (applyMove_rejected_final i _ r Hr) as [l ->]. done.
  - rewrite applyMove_accepted_final by done. cbn.
    by destruct (checkWin _) as [[w cb|]|].
Qed.

(** ** The score *)

Lemma scores_le_refl (a : scores) : scores_le a a.
Proof. unfold scores_le. lia. Qed.

Lemma scores_le_trans (a b c : scores) :
  scores_le a b → scores_le b c → scores_le a c.
Proof. unfold scores_le. lia. Qed.

Lemma exec_scores_le (o : op) (s : state) : scores_le (score s) (score (exec o s)).
Proof.
  destruct o as [idx|]; cbn [exec]; [|apply scores_le_refl].
  destruct (rejection idx s) as [r|] eqn:Hr.
  - destruct (applyMove_rejected_final idx s r Hr) as [l ->].
    apply scores_le_refl.
  - rewrite applyMove_accepted_final by done. cbn.
    destruct (checkWin _) as [[[] cb|]|]; cbn; unfold scores_le; cbn; lia.
Qed.

Lemma run_scores_le (ops : list op) (s : state) :
  scores_le (score s) (score (run ops s)).
Proof.
  induction ops as [|o ops IH] using rev_ind; [apply scores_le_refl|].
  rewrite run_snoc. eapply scores_le_trans; [exact IH|apply exec_scores_le].
Qed.

(** C8.  Over any sequence of clicks and resets, from any state, no
    counter decreases, and a reset leaves all three as they were.  A
    click changes the score only when it is accepted and ends the game:
    a win adds one to the winner's counter, a draw adds one to [draws],
    and the other two counters keep their values. *)
Theorem score_counters_only_grow (ops : list op) (idx : Z) (s : state) :
  scores_le (score s) (score (run ops s)) ∧
  score (final (reset s)) = score s ∧
  match rejection idx s with
  | Some _ =>
      finished (final (applyMove idx s)) = finished s ∧
      score (final (applyMove idx s)) = score s
  | None =>
      finished s = false ∧
      match checkWin (cells (final (applyMove idx s))) with
      | Some (Winner X _) =>
          finished (final (applyMove idx s)) = true ∧
          score (final (applyMove idx s)) =
            mkScores (S (score_X (score s))) (score_O (score s))
                     (score_draws (score s))
      | Some (Winner O _) =>
          finished (final (applyMove idx s)) = true ∧
          score (final (applyMove idx s)) =
            mkScores (score_X (score s)) (S (score_O (score s)))
                     (score_draws (score s))
      | Some Draw =>
          finished (final (applyMove idx s)) = true ∧
          score (final (applyMove idx s)) =
            mkScores (score_X (score s)) (score_O (score s))
                     (S (score_draws (score s)))
      | None =>
          finished (final (applyMove idx s)) = false ∧
          score (final (applyMove idx s)) = score s
      end
  end.
Proof.
  split_and!; [apply run_scores_le|reflexivity|].
  destruct (rejection idx s) as [r|] eqn:Hr.
  - destruct (applyMove_rejected_final idx s r Hr) as [l ->]. done.
  - pose proof Hr as (_ & Hf & _)%rejection_None. split; [done|].
    rewrite applyMove_accepted_final by done. cbn.
    destruct (checkWin (JsArray.set _ _ _)) as [[[] cb|]|] eqn:Hw;
      cbn; rewrite Hw; done.
Qed.

(** ** Turns *)

Lemma turn_toggle (p : player) (n : nat) : turn (toggle p) n = toggle (turn p n).
Proof. unfold turn. induction n as [|n IH]; simpl; congruence. Qed.

Lemma alternating_snoc (p q : player) (g : list player) :
  alternating p g → q = turn p (List.length g) → alternating p (g ++ [q]).
Proof.
  revert p. induction g as [|x g IH]; intros p Hg Hq; simpl in *.
  - done.
  - destruct Hg as [-> Hg]. split; [done|]. apply IH; [done|].
    by rewrite turn_toggle.
Qed.

Lemma movers_snoc (out : list line) (l : line) :
  movers (out ++ [l]) = record_line (movers out) l.
Proof. unfold movers. by rewrite foldl_app. Qed.

Lemma movers_app_warn (out : list line) (r : reason) (i : Z) (s : state) :
  movers (out ++ feedback r i s) = movers out.
Proof.
  unfold movers. rewrite foldl_app. by destruct r.
Qed.

Lemma exec_turn_inv (o : op) (s : state) : turn_inv s → turn_inv (exec o s).
Proof.
  intros [Halt Hturn]. destruct o as [idx|]; cbn [exec].
  - destruct (rejection idx s) as [r|] eqn:Hr.
    + rewrite (applyMove_rejected idx s r Hr).
      destruct (querySelector idx) as [i|]; cbn [final]; [|done].
      unfold turn_inv, reported. cbn. by rewrite movers_app_warn.
    + pose proof Hr as (_ & Hf & _)%rejection_None.
      specialize (Hturn Hf).
      rewrite applyMove_accepted_final by done. cbn [final].
      assert (Hm : ∀ l, movers (console s ++ [LogClicked idx (currentPlayer s); l])
                        = record_line (movers (console s) ++ [currentPlayer s]) l).
      { intros l. change [LogClicked idx (currentPlayer s); l]
          with ([LogClicked idx (currentPlayer s)] ++ [l]).
        by rewrite app_assoc, !movers_snoc. }
      destruct (checkWin _) as [[w cb|]|]; unfold turn_inv; cbn;
        rewrite Hm; cbn; (split; [by apply alternating_snoc|]); try done.
      intros _. rewrite length_app. cbn.
      rewrite Hturn, Nat.add_1_r. reflexivity.
  - rewrite reset_final. unfold turn_inv. cbn. rewrite movers_snoc. done.
Qed.

Lemma run_turn_inv (ops : list op) : turn_inv (run ops init).
Proof.
  induction ops as [|o ops IH] using rev_ind.
  - split; [exact I|reflexivity].
  - rewrite run_snoc. by apply exec_turn_inv.
Qed.

Lemma toggle_nth_mover (k : nat) : toggle (nth_mover k) = nth_mover (S k).
Proof.
  unfold nth_mover. rewrite Nat.even_succ, <- Nat.negb_even.
  by destruct (Nat.even k).
Qed.

Lemma alternating_nth_mover (k : nat) (g : list player) :
  alternating (nth_mover k) g →
  g = map nth_mover (seq k (List.length g)).
Proof.
  revert k. induction g as [|q g IH]; intros k; cbn; [done|].
  intros [-> Hg]. f_equal. apply IH. by rewrite <- toggle_nth_mover.
Qed.

(** C6.  The page starts with X to move and every reset gives the move
    back to X.  An accepted click that does not end the game passes the
    move from X to O or from O to X; a click that ends the game or is
    turned down leaves the player as it was.  So in every session the
    marks placed since the start or the last reset are X, O, X, O, ...
    in that order: the move number [n] of a game, counting from 0, is
    made by X when [n] is even and by O when it is odd. *)
Theorem turns_alternate_from_X (ops : list op) (idx : Z) (s : state) :
  currentPlayer init = X ∧
  currentPlayer (final (reset s)) = X ∧
  match rejection idx s, checkWin (cells (final (applyMove idx s))) with
  | None, None =>
      finished (final (applyMove idx s)) = false ∧
      (currentPlayer s = X ∧ currentPlayer (final (applyMove idx s)) = O ∨
       currentPlayer s = O ∧ currentPlayer (final (applyMove idx s)) = X)
  | None, Some _ =>
      finished (final (applyMove idx s)) = true ∧
      currentPlayer (final (applyMove idx s)) = currentPlayer s
  | Some _, _ =>
      currentPlayer (final (applyMove idx s)) = currentPlayer s
  end ∧
  movers (console (run ops init)) =
    map nth_mover (seq 0 (List.length (movers (console (run ops init))))).
Proof.
  split_and!; [reflexivity|reflexivity| |].
  - destruct (rejection idx s) as [r|] eqn:Hr.
    + destruct (applyMove_rejected_final idx s r Hr) as [l ->]. done.
    + rewrite applyMove_accepted_final by done. cbn.
      destruct (checkWin (JsArray.set _ _ _)) as [[w cb|]|] eqn:Hw;
        cbn; rewrite Hw; try done.
      split; [done|]. destruct (currentPlayer s); [by left|by right].
  - apply (alternating_nth_mover 0). apply run_turn_inv.
Qed.

(** ** A click that carries an index off the board *)

Lemma select_as_built (idx : Z) : select (seqZ 0 9) idx = querySelector idx.
Proof.
  unfold select, querySelector. apply (f_equal (fun b : bool => if b then _ else _)).
  apply bool_decide_ext, elem_of_seqZ_0_9.
Qed.


Lemma validateMoveOn_rejection (attrs : list Z) (idx : Z) (s : state) :
  validateMoveOn attrs idx s =
    match rejection idx s with
    | Some r =>
        match select attrs idx with
        | Some i => Normal false (reported r i s)
        | None => Abrupt TypeError s
        end
    | None => Normal true s
    end.
Proof.
  unfold validateMoveOn, rejection, reported, feedback, strict_eq. unfold_m.
  destruct (isProcessing s) eqn:Hp; simpl.
  { destruct (select attrs idx); simpl; done. }
  destruct (finished s) eqn:Hf; simpl.
  { destruct (select attrs idx); simpl; [|done].
    unfold with_console; simpl. by rewrite <- app_assoc. }
  destruct (bool_decide (JsArray.get (cells s) idx = Null)); simpl; [done|].
  destruct (select attrs idx); simpl; done.
Qed.

Lemma applyMoveOn_rejected (attrs : list Z) (idx : Z) (s : state) (r : reason) :
  rejection idx s = Some r →
  applyMoveOn attrs idx s =
    match select attrs idx with
    | Some i => Normal tt (reported r i s)
    | None => Abrupt TypeError s
    end.
Proof.
  intros Hr. unfold applyMoveOn, bind at 1.
  rewrite validateMoveOn_rejection, Hr.
  by destruct (select attrs idx).
Qed.

Lemma applyMoveOn_accepted (attrs : list Z) (idx : Z) (s : state) :
  rejection idx s = None → applyMoveOn attrs idx s = applyMove idx s.
Proof.
  intros Hr. unfold applyMoveOn, applyMove, bind at 1 4.
  by rewrite validateMoveOn_rejection, validateMove_rejection, Hr.
Qed.

(** On the page as built the two handlers are the same. *)
Lemma applyMoveOn_as_built (idx : Z) (s : state) :
  applyMoveOn (seqZ 0 9) idx s = applyMove idx s.
Proof.
  destruct (rejection idx s) as [r|] eqn:Hr.
  - by rewrite (applyMoveOn_rejected _ _ _ _ Hr), (applyMove_rejected _ _ _ Hr),
      select_as_built.
  - by apply applyMoveOn_accepted.
Qed.









(** ** The handlers return *)

(** A click on a button of the board never throws. *)
Lemma applyMove_returns_on_board (idx : Z) (s : state) :
  0 ≤ idx < 9 → applyMove idx s = Normal tt (final (applyMove idx s)).
Proof.
  intros Hidx. destruct (rejection idx s) as [r|] eqn:Hr.
  - by rewrite (applyMove_rejected idx s r Hr), querySelector_board.
  - by rewrite applyMove_accepted_final.
Qed.

(** ** The examples of the specification *)

(** X on 0, O on 3, X on 1, O on 4, X on 2: X wins on the top row and
    its counter goes from 0 to 1. *)
Example top_row_win :
  let s := run [Move 0; Move 3; Move 1; Move 4] init in
  let s' := exec (Move 2) s in
  board_of s' = [Str X; Str X; Str X; Str O; Str O; Null; Null; Null; Null] ∧
  checkWin (cells s') = Some (Winner X (0, 1, 2)) ∧
  finished s = false ∧ finished s' = true ∧
  score s = mkScores 0 0 0 ∧ score s' = mkScores 1 0 0.
Proof. vm_compute. done. Qed.

(** The cells 0, 1, 2, 4, 3, 5, 7, 6, 8 filled in turn: a draw on the
    ninth move, and [draws] goes up by one. *)
Example ninth_move_draw :
  let s := run [Move 0; Move 1; Move 2; Move 4; Move 3; Move 5; Move 7; Move 6] init in
  let s' := exec (Move 8) s in
  cells s' = drawn_board ∧
  checkWin (cells s') = Some Draw ∧
  finished s = false ∧ finished s' = true ∧
  score s = mkScores 0 0 0 ∧ score s' = mkScores 0 0 1.
Proof. vm_compute. done. Qed.

(** A click on cell 0 when X already holds it: reported as occupied by
    X, board and score unchanged. *)
Example occupied_cell_click :
  let s := run [Move 0] init in
  rejection 0 s = Some (CellOccupied (Str X)) ∧
  applyMove 0 s = Normal tt (reported (CellOccupied (Str X)) 0 s) ∧
  cells (exec (Move 0) s) = cells s ∧
  score (exec (Move 0) s) = score s.
Proof. vm_compute. done. Qed.

(** After a win every further click is turned down as game over, until
    the reset. *)
Example click_after_win :
  let s := run [Move 0; Move 3; Move 1; Move 4; Move 2] init in
  rejection 5 s = Some GameOver ∧
  board_of (exec (Move 5) s) = board_of s ∧
  board_of (run [ResetGame; Move 5] s)
    = [Null; Null; Null; Null; Null; Str X; Null; Null; Null] ∧
  score (run [ResetGame; Move 5] s) = mkScores 1 0 0.
Proof. vm_compute. done. Qed.

(** * Further properties of the game *)

(** ** What [checkWin] reports is on the board *)

Lemma scan_some (c : JsArray.t) (ws : list combo) (r : result) :
  scan c ws = Some r → ∃ w p, r = Winner p w ∧ w ∈ ws ∧ holds c w p.
Proof.
  induction ws as [|u ws IH]; [done|].
  rewrite scan_cons. destruct (line_test c u) eqn:Ht.
  - apply line_test_holds in Ht as [p Hp]. pose proof Hp as (Ha & _).
    rewrite Ha. intros [= <-]. exists u, p. split_and!; [done|by left|done].
  - intros (w & p & -> & Hin & Hw)%IH. exists w, p.
    split_and!; [done|by right|done].
Qed.

Lemma scan_none_inv (c : JsArray.t) (ws : list combo) :
  scan c ws = None → ∀ w p, w ∈ ws → ¬ holds c w p.
Proof.
  induction ws as [|u ws IH]; intros Hs w p Hin Hw.
  - by apply elem_of_nil in Hin.
  - rewrite scan_cons in Hs. destruct (line_test c u) eqn:Ht.
    + apply line_test_holds in Ht as [q (Ha & _)]. by rewrite Ha in Hs.
    + apply elem_of_cons in Hin as [->|Hin]; [|by apply (IH Hs w p)].
      assert (line_test c u = true) by (apply line_test_holds; eauto).
      congruence.
Qed.

Lemma checkWin_None_no_win (c : JsArray.t) : checkWin c = None → no_win c.
Proof.
  unfold checkWin. destruct (scan c wins) eqn:Hs; [done|].
  intros _. exact (scan_none_inv c wins Hs).
Qed.

Lemma board_full_or_empty (c : JsArray.t) : full c ∨ has_empty c.
Proof.
  destruct (decide (Exists (fun i => JsArray.get c i = Null) (seqZ 0 9)))
    as [He|Hne].
  - right. apply Exists_exists in He as (i & Hi & Hnull).
    exists i. split; [by apply elem_of_seqZ_0_9|done].
  - left. intros i Hi Hnull. apply Hne, Exists_exists.
    exists i. split; [by apply elem_of_seqZ_0_9|done].
Qed.

(** X1.  On a board, a winner reported by [checkWin] holds the reported
    combination, which is one of [wins]; a draw is reported only when no
    combination is held and no cell is empty; and nothing is reported
    only when no combination is held and some cell is empty. *)
Theorem checkWin_sound (c : JsArray.t) :
  is_board c →
  match checkWin c with
  | Some (Winner p w) => w ∈ wins ∧ holds c w p
  | Some Draw => no_win c ∧ full c
  | None => no_win c ∧ has_empty c
  end.
Proof.
  intros Hb. unfold checkWin. destruct (scan c wins) as [r|] eqn:Hs.
  - apply scan_some in Hs as (w & p & -> & Hin & Hw). done.
  - pose proof (scan_none_inv c wins Hs) as Hno.
    destruct (board_full_or_empty c) as [Hf|He].
    + by rewrite every_truthy_full.
    + by rewrite every_truthy_empty.
Qed.

Lemma checkWin_sound_witness :
  match checkWin two_rows with
  | Some (Winner p w) => w ∈ wins ∧ holds two_rows w p
  | Some Draw => no_win two_rows ∧ full two_rows
  | None => no_win two_rows ∧ has_empty two_rows
  end.
Proof. apply (checkWin_sound two_rows). board_facts. Defined.

(** ** The game status follows the board *)

Lemma reset_cells_init (s : state) :
  nine_cells (cells s) → cells (final (reset s)) = cells init.
Proof.
  intros Hc. apply nine_cells_ext.
  - by apply reset_nine_cells.
  - apply init_nine_cells.
  - intros i Hi. rewrite reset_cells_get, init_cells_get.
    by rewrite bool_decide_eq_true_2.
Qed.

Lemma checkWin_init : checkWin (cells init) = None.
Proof. reflexivity. Qed.

(** A combination held after a mark is placed, and not before, goes
    through the marked cell and belongs to the mover. *)
Lemma holds_after_set (c : JsArray.t) (idx : Z) (p q : player) (w : combo) :
  holds (JsArray.set c idx (Str p)) w q → ¬ holds c w q →
  q = p ∧ (idx = w.1.1 ∨ idx = w.1.2 ∨ idx = w.2).
Proof.
  destruct w as [[a b] d]. unfold holds. cbn [fst snd].
  intros (Ha & Hb & Hd) Hno.
  destruct (decide (idx = a)) as [->|Hna].
  { rewrite get_set_eq in Ha. split; [congruence|by left]. }
  destruct (decide (idx = b)) as [->|Hnb].
  { rewrite get_set_eq in Hb. split; [congruence|right; by left]. }
  destruct (decide (idx = d)) as [->|Hnd].
  { rewrite get_set_eq in Hd. split; [congruence|right; by right]. }
  rewrite get_set_ne in Ha, Hb, Hd by done. by destruct Hno.
Qed.

Lemma exec_status_inv (o : op) (s : state) :
  nine_cells (cells s) → status_inv s → status_inv (exec o s).
Proof.
  intros Hc [Hfin Hwin]. destruct o as [idx|]; cbn [exec].
  - destruct (rejection idx s) as [r|] eqn:Hr.
    + destruct (applyMove_rejected_final idx s r Hr) as [l ->]. done.
    + pose proof Hr as (_ & Hf & _)%rejection_None.
      rewrite applyMove_accepted_final by done. cbn [final].
      assert (Hno : no_win (cells s)).
      { apply checkWin_None_no_win. rewrite Hf in Hfin.
        by destruct (checkWin (cells s)). }
      destruct (checkWin (JsArray.set _ _ _)) as [[w cb|]|] eqn:Hw;
        split; cbn; rewrite ?Hw; try done.
      intros w' cb' [= <- <-].
      unfold checkWin in Hw.
      destruct (scan _ wins) as [r|] eqn:Hs; [|by destruct (JsArray.every _ _)].
      injection Hw as ->.
      apply scan_some in Hs as (u & q & Heq & Hin & Hu).
      injection Heq as -> ->.
      by destruct (holds_after_set _ _ _ _ _ Hu (Hno u q Hin)).
  - unfold status_inv. rewrite reset_cells_init by done.
    rewrite checkWin_init. split; [reflexivity|done].
Qed.

Lemma run_status_inv (ops : list op) : status_inv (run ops init).
Proof.
  induction ops as [|o ops IH] using rev_ind.
  - change (run [] init) with init.
    split; [reflexivity|]. by rewrite checkWin_init.
  - rewrite run_snoc. apply exec_status_inv; [apply run_nine_cells|done].
Qed.

(** X2.  In every session [finished] is true exactly when [checkWin]
    reports a result on the board as it stands: a won or full board is
    never left in progress, and a game is never ended on a board that
    still has an empty cell and no winner. *)
Theorem finished_iff_board_decided (ops : list op) :
  finished (run ops init) =
    match checkWin (cells (run ops init)) with
    | Some _ => true
    | None => false
    end.
Proof. apply run_status_inv. Qed.

(** X3.  In every session, when an accepted click makes [checkWin]
    report a winner, the winner is the player who clicked, the winning
    combination goes through the clicked cell, and that player's counter
    goes up by one while the other two counters keep their values. *)
Theorem win_belongs_to_the_mover
    (ops : list op) (idx : Z) (w : player) (cb : combo) :
  rejection idx (run ops init) = None →
  checkWin (cells (exec (Move idx) (run ops init))) = Some (Winner w cb) →
  w = currentPlayer (run ops init) ∧
  (idx = cb.1.1 ∨ idx = cb.1.2 ∨ idx = cb.2) ∧
  score (exec (Move idx) (run ops init)) =
    match currentPlayer (run ops init) with
    | X => mkScores (S (score_X (score (run ops init))))
                    (score_O (score (run ops init)))
                    (score_draws (score (run ops init)))
    | O => mkScores (score_X (score (run ops init)))
                    (S (score_O (score (run ops init))))
                    (score_draws (score (run ops init)))
    end.
Proof.
  intros Hr Hw. cbn [exec] in *.
  pose proof (run_status_inv ops) as [Hfin _].
  pose proof Hr as (_ & Hf & _)%rejection_None.
  assert (Hno : no_win (cells (run ops init))).
  { apply checkWin_None_no_win. rewrite Hf in Hfin.
    by destruct (checkWin (cells (run ops init))). }
  rewrite applyMove_accepted_cells in Hw by done.
  assert (Hq : w = currentPlayer (run ops init) ∧
               (idx = cb.1.1 ∨ idx = cb.1.2 ∨ idx = cb.2)).
  { pose proof Hw as Hw'. unfold checkWin in Hw'.
    destruct (scan _ wins) as [r|] eqn:Hs; [|by destruct (JsArray.every _ _)].
    injection Hw' as ->.
    apply scan_some in Hs as (u & q & Heq & Hin & Hu).
    injection Heq as -> ->.
    exact (holds_after_set _ _ _ _ _ Hu (Hno u q Hin)). }
  destruct Hq as [-> Hthrough]. split_and!; [done|done|].
  rewrite applyMove_accepted_final by done. cbn. rewrite Hw.
  by destruct (currentPlayer (run ops init)).
Qed.

Lemma win_belongs_to_the_mover_witness :
  X = currentPlayer (run [Move 0; Move 3; Move 1; Move 4] init) ∧
  (2 = (0, 1, 2).1.1 ∨ 2 = (0, 1, 2).1.2 ∨ 2 = (0, 1, 2).2) ∧
  score (exec (Move 2) (run [Move 0; Move 3; Move 1; Move 4] init)) =
    match currentPlayer (run [Move 0; Move 3; Move 1; Move 4] init) with
    | X => mkScores
             (S (score_X (score (run [Move 0; Move 3; Move 1; Move 4] init))))
             (score_O (score (run [Move 0; Move 3; Move 1; Move 4] init)))
             (score_draws (score (run [Move 0; Move 3; Move 1; Move 4] init)))
    | O => mkScores
             (score_X (score (run [Move 0; Move 3; Move 1; Move 4] init)))
             (S (score_O (score (run [Move 0; Move 3; Move 1; Move 4] init))))
             (score_draws (score (run [Move 0; Move 3; Move 1; Move 4] init)))
    end.
Proof.
  apply (win_belongs_to_the_mover [Move 0; Move 3; Move 1; Move 4] 2 X (0, 1, 2)).
  - reflexivity.
  - reflexivity.
Defined.

(** ** A finished game stays as it is until the reset *)

Lemma exec_move_finished (idx : Z) (s : state) :
  finished s = true →
  ∃ l, exec (Move idx) s = with_console (console s ++ l) s.
Proof.
  intros Hf. cbn [exec].
  assert (∃ r, rejection idx s = Some r) as [r Hr].
  { unfold rejection. rewrite Hf. destruct (isProcessing s); eauto. }
  by apply (applyMove_rejected_final idx s r).
Qed.

Lemma forallb_is_move_snoc (ops : list op) (o : op) :
  forallb is_move (ops ++ [o]) = true →
  forallb is_move ops = true ∧ ∃ idx, o = Move idx.
Proof.
  rewrite forallb_app. cbn. intros [H1 H2]%andb_true_iff.
  split; [done|]. destruct o; [eauto|done].
Qed.

(** X4.  Once a game has ended, no sequence of clicks changes the board,
    the player, the score or the status: only the reset handler leaves
    a finished game. *)
Theorem finished_game_is_frozen (ops : list op) (s : state) :
  finished s = true → forallb is_move ops = true →
  cells (run ops s) = cells s ∧
  currentPlayer (run ops s) = currentPlayer s ∧
  score (run ops s) = score s ∧
  finished (run ops s) = true.
Proof.
  intros Hf. induction ops as [|o ops IH] using rev_ind; intros Hops.
  - done.
  - apply forallb_is_move_snoc in Hops as [Hops [idx ->]].
    destruct (IH Hops) as (Hc & Hp & Hs & Hf').
    rewrite run_snoc.
    destruct (exec_move_finished idx (run ops s) Hf') as [l ->]. done.
Qed.

Lemma finished_game_is_frozen_witness :
  let s := run [Move 0; Move 3; Move 1; Move 4; Move 2] init in
  cells (run [Move 5; Move 0; Move 8] s) = cells s ∧
  currentPlayer (run [Move 5; Move 0; Move 8] s) = currentPlayer s ∧
  score (run [Move 5; Move 0; Move 8] s) = score s ∧
  finished (run [Move 5; Move 0; Move 8] s) = true.
Proof.
  apply (finished_game_is_frozen [Move 5; Move 0; Move 8]
           (run [Move 0; Move 3; Move 1; Move 4; Move 2] init)).
  - reflexivity.
  - reflexivity.
Defined.

(** X5.  Between two resets the score counts at most one game: over any
    sequence of clicks either the score is unchanged, or the number of
    games counted has gone up by exactly one and the game is over. *)
Theorem game_scored_at_most_once (ops : list op) (s : state) :
  forallb is_move ops = true →
  score (run ops s) = score s ∨
  (games_scored (score (run ops s)) = S (games_scored (score s)) ∧
   scores_le (score s) (score (run ops s)) ∧
   finished (run ops s) = true).
Proof.
  induction ops as [|o ops IH] using rev_ind; intros Hops; [by left|].
  apply forallb_is_move_snoc in Hops as [Hops [idx ->]].
  rewrite run_snoc. destruct (IH Hops) as [Hsame|(Hone & Hle & Hf)].
  - cbn [exec]. destruct (rejection idx (run ops s)) as [r|] eqn:Hr.
    + destruct (applyMove_rejected_final idx _ r Hr) as [l ->]. by left.
    + rewrite applyMove_accepted_final by done. cbn [final].
      destruct (checkWin _) as [[[] cb|]|]; cbn; rewrite Hsame;
        [right|right|right|by left];
        (split_and!; [|unfold scores_le; cbn; lia|done]);
        unfold games_scored; cbn; lia.
  - right. destruct (exec_move_finished idx (run ops s) Hf) as [l ->]. done.
Qed.

Lemma game_scored_at_most_once_witness :
  let ops := [Move 0; Move 3; Move 1; Move 4; Move 2; Move 5; Move 6] in
  score (run ops init) = score init ∨
  (games_scored (score (run ops init)) = S (games_scored (score init)) ∧
   scores_le (score init) (score (run ops init)) ∧
   finished (run ops init) = true).
Proof.
  apply (game_scored_at_most_once
           [Move 0; Move 3; Move 1; Move 4; Move 2; Move 5; Move 6] init).
  reflexivity.
Defined.

(** ** Clicks on and off the board *)

Lemma run_lock_free (ops : list op) : isProcessing (run ops init) = false.
Proof.
  induction ops as [|o ops IH] using rev_ind; [reflexivity|].
  rewrite run_snoc. destruct o as [idx|]; cbn [exec]; [|reflexivity].
  destruct (rejection idx (run ops init)) as [r|] eqn:Hr.
  - destruct (applyMove_rejected_final idx _ r Hr) as [l ->]. done.
  - rewrite applyMove_accepted_final by done. cbn.
    by destruct (checkWin _) as [[w cb|]|].
Qed.



(** X7.  From every state, a click on one of the nine buttons returns:
    whether the move is accepted or turned down, the handler does not
    throw. *)
Theorem on_board_click_returns (idx : Z) (s : state) :
  0 ≤ idx < 9 → ∃ s', applyMove idx s = Normal tt s'.
Proof.
  intros Hidx. destruct (rejection idx s) as [r|] eqn:Hr.
  - rewrite (applyMove_rejected idx s r Hr), querySelector_board by done.
    eauto.
  - rewrite applyMove_accepted_final by done. eauto.
Qed.

Lemma on_board_click_returns_witness :
  ∃ s', applyMove 4 corner_taken_over = Normal tt s'.
Proof. apply (on_board_click_returns 4 corner_taken_over). lia. Defined.

(** ** The marks on the board *)

Lemma board_of_set (c : JsArray.t) (idx : Z) (v : value) :
  0 ≤ idx < 9 →
  map (JsArray.get (JsArray.set c idx v)) (seqZ 0 9) =
    <[Z.to_nat idx := v]> (map (JsArray.get c) (seqZ 0 9)).
Proof.
  intros Hidx. rewrite seqZ_0_9. cell_cases idx Hidx; cbn [map];
    rewrite get_set_eq, !get_set_ne by lia; reflexivity.
Qed.

Lemma board_of_lookup (c : JsArray.t) (idx : Z) :
  0 ≤ idx < 9 →
  map (JsArray.get c) (seqZ 0 9) !! Z.to_nat idx = Some (JsArray.get c idx).
Proof.
  intros Hidx. rewrite seqZ_0_9. cell_cases idx Hidx; reflexivity.
Qed.

Lemma occurrences_insert {A} `{EqDecision A}
    (x old new : A) (l : list A) (n : nat) :
  l !! n = Some old →
  (occurrences x (<[n := new]> l) + (if decide (old = x) then 1 else 0)
   = occurrences x l + (if decide (new = x) then 1 else 0))%nat.
Proof.
  revert n. induction l as [|y l IH]; intros [|n] Hn; try done.
  - injection Hn as ->.
    change (<[0%nat := new]> (old :: l)) with (new :: l).
    cbn [occurrences]. lia.
  - change (<[S n := new]> (y :: l)) with (y :: <[n := new]> l).
    cbn [occurrences]. specialize (IH n Hn). lia.
Qed.

Lemma occurrences_snoc {A} `{EqDecision A} (x y : A) (l : list A) :
  occurrences x (l ++ [y])
  = (occurrences x l + (if decide (y = x) then 1 else 0))%nat.
Proof. induction l as [|z l IH]; cbn; [lia|]. rewrite IH. lia. Qed.

Lemma occurrences_replicate_ne {A} `{EqDecision A} (x y : A) (n : nat) :
  y ≠ x → occurrences x (replicate n y) = 0%nat.
Proof.
  intros Hne. induction n as [|n IH]; cbn; [done|].
  rewrite IH. by rewrite decide_False.
Qed.

Lemma movers_accepted (out : list line) (idx : Z) (p : player) (l : line) :
  l ≠ LogReset → (∀ i q, l ≠ LogClicked i q) →
  movers (out ++ [LogClicked idx p; l]) = movers out ++ [p].
Proof.
  intros Hr Hc.
  change [LogClicked idx p; l] with ([LogClicked idx p] ++ [l]).
  rewrite app_assoc, !movers_snoc. cbn.
  destruct l; try done. by destruct (Hc idx0 p0).
Qed.

Lemma board_of_init : board_of init = replicate 9%nat Null.
Proof. reflexivity. Qed.

Lemma exec_marks_inv (o : op) (s : state) :
  nine_cells (cells s) → marks_inv s → marks_inv (exec o s).
Proof.
  intros Hc Hm q. specialize (Hm q). destruct o as [idx|]; cbn [exec].
  - destruct (rejection idx s) as [r|] eqn:Hr.
    + rewrite (applyMove_rejected idx s r Hr).
      destruct (querySelector idx) as [i|]; cbn [final]; [|done].
      unfold reported, board_of in *. cbn. by rewrite movers_app_warn.
    + pose proof Hr as (_ & _ & Hnull)%rejection_None.
      pose proof (nine_cells_null_on_board _ _ Hc Hnull) as Hidx.
      pose proof (board_of_lookup (cells s) idx Hidx) as Hlook.
      rewrite Hnull in Hlook.
      pose proof (occurrences_insert (Str q) Null (Str (currentPlayer s))
                    _ _ Hlook) as Hocc.
      rewrite <- board_of_set in Hocc by done.
      rewrite decide_False in Hocc by done.
      assert (Hd : (if decide (Str (currentPlayer s) = Str q) then 1 else 0)%nat
                   = (if decide (currentPlayer s = q) then 1 else 0)%nat).
      { destruct (decide (currentPlayer s = q)) as [->|Hne].
        - by rewrite decide_True.
        - rewrite decide_False; [done|congruence]. }
      rewrite Hd in Hocc.
      rewrite applyMove_accepted_final by done. cbn [final].
      unfold board_of in *.
      destruct (checkWin _) as [[w cb|]|]; cbn [cells console];
        rewrite movers_accepted, occurrences_snoc by done; lia.
  - unfold board_of. rewrite reset_cells_init by done.
    fold (board_of init). rewrite board_of_init.
    rewrite occurrences_replicate_ne by done.
    rewrite reset_final. cbn [final console]. by rewrite movers_snoc.
Qed.

Lemma run_marks_inv (ops : list op) : marks_inv (run ops init).
Proof.
  induction ops as [|o ops IH] using rev_ind.
  - intros p. change (run [] init) with init. rewrite board_of_init.
    by rewrite occurrences_replicate_ne.
  - rewrite run_snoc. apply exec_marks_inv; [apply run_nine_cells|done].
Qed.

Lemma alternating_counts (p : player) (g : list player) :
  alternating p g →
  occurrences p g = occurrences (toggle p) g ∨
  occurrences p g = S (occurrences (toggle p) g).
Proof.
  revert p. induction g as [|q g IH]; intros p; cbn; [by left|].
  intros [-> Hg]. destruct (IH _ Hg) as [He|He].
  - right. rewrite decide_True by done.
    rewrite decide_False by (by destruct p).
    destruct p; cbn in *; lia.
  - left. rewrite decide_True by done.
    rewrite decide_False by (by destruct p).
    destruct p; cbn in *; lia.
Qed.

(** X8.  In every session the board carries, for each player, as many
    marks as that player has placed in the current game; so X has as
    many marks on the board as O, or exactly one more. *)
Theorem marks_are_balanced (ops : list op) :
  (∀ p, occurrences (Str p) (board_of (run ops init))
        = occurrences p (movers (console (run ops init)))) ∧
  (occurrences (Str X) (board_of (run ops init))
   = occurrences (Str O) (board_of (run ops init)) ∨
   occurrences (Str X) (board_of (run ops init))
   = S (occurrences (Str O) (board_of (run ops init)))).
Proof.
  pose proof (run_marks_inv ops) as Hm. split; [exact Hm|].
  rewrite !Hm. apply (alternating_counts X). apply run_turn_inv.
Qed.

(** ** A game takes at most nine moves *)

Lemma occurrences_players (g : list player) :
  List.length g = (occurrences X g + occurrences O g)%nat.
Proof.
  induction g as [|[] g IH]; cbn [occurrences List.length]; [done|..].
  - rewrite decide_True, decide_False by done. lia.
  - rewrite decide_False, decide_True by done. lia.
Qed.

Lemma marks_bound (l : list value) :
  (occurrences (Str X) l + occurrences (Str O) l ≤ List.length l)%nat ∧
  ((occurrences (Str X) l + occurrences (Str O) l)%nat = List.length l →
   Forall (fun v => v ≠ Null) l).
Proof.
  induction l as [|v l [IH1 IH2]]; cbn [occurrences List.length]; [done|].
  destruct v as [| |[]].
  - rewrite !decide_False by done. split; [lia|]. intros ?; lia.
  - rewrite !decide_False by done. split; [lia|]. intros ?; lia.
  - rewrite decide_True, decide_False by done. split; [lia|].
    intros ?. constructor; [done|]. apply IH2. lia.
  - rewrite decide_False, decide_True by done. split; [lia|].
    intros ?. constructor; [done|]. apply IH2. lia.
Qed.

Lemma checkWin_full_decided (c : JsArray.t) :
  is_board c → full c → checkWin c ≠ None.
Proof.
  intros Hb Hf. unfold checkWin. destruct (scan c wins); [done|].
  by rewrite every_truthy_full.
Qed.

(** X9.  In every session at most nine marks are placed in one game,
    and while the game is in progress at most eight: the ninth mark
    always ends the game. *)
Theorem game_ends_within_nine_moves (ops : list op) :
  (List.length (movers (console (run ops init)))
   ≤ if finished (run ops init) then 9 else 8)%nat.
Proof.
  pose proof (run_marks_inv ops) as Hm.
  pose proof (run_nine_cells ops) as [Hb _].
  pose proof (finished_status := proj1 (run_status_inv ops)).
  destruct (marks_bound (board_of (run ops init))) as [Hle Hall].
  assert (Hlen : List.length (board_of (run ops init)) = 9%nat) by reflexivity.
  rewrite occurrences_players, <- !Hm.
  destruct (finished (run ops init)); [lia|].
  destruct (decide ((occurrences (Str X) (board_of (run ops init))
                     + occurrences (Str O) (board_of (run ops init)))%nat
                    = 9%nat)) as [Hnine|]; [|lia].
  assert (Hfull : full (cells (run ops init))).
  { intros i Hi Hnull. rewrite Hlen in Hall. specialize (Hall Hnine).
    rewrite Forall_lookup in Hall.
    apply (Hall (Z.to_nat i) (JsArray.get (cells (run ops init)) i));
      [by apply board_of_lookup|done]. }
  pose proof (checkWin_full_decided _ Hb Hfull) as Hdec.
  by destruct (checkWin (cells (run ops init))).
Qed.

(** * Properties of the page *)

(** ** The handlers, step by step *)

Ltac unfold_p :=
  unfold showInvalidFeedback_page, for_each, pbind, pret, lift, render;
  unfold_m.

Lemma page_eta (pg : page) : mkPage (game pg) (screen pg) = pg.
Proof. by destruct pg. Qed.

Lemma on_button_timers (i : Z) (f : button → button) (v : view) :
  timers (on_button i f v) = timers v.
Proof. unfold on_button. by destruct (querySelector i). Qed.

Lemma cellClick_rejected (idx : Z) (pg : page) (r : reason) :
  rejection idx (game pg) = Some r →
  cellClick idx pg =
    match querySelector idx with
    | Some i =>
        Returned tt (mkPage (reported r i (game pg)) (shake_view i (screen pg)))
    | None => Thrown TypeError pg
    end.
Proof.
  destruct pg as [s v]. cbn [game screen].
  unfold rejection, cellClick, validateMove_page, reported, feedback,
    shake_view, strict_eq. unfold_p. cbn.
  destruct (isProcessing s) eqn:Hp; cbn.
  { intros [= <-]. destruct (querySelector idx); cbn; [|done].
    by rewrite on_button_timers. }
  destruct (finished s) eqn:Hf; cbn.
  { intros [= <-]. destruct (querySelector idx); cbn; [|done].
    rewrite on_button_timers. unfold_with; cbn. by rewrite <- app_assoc. }
  destruct (bool_decide (JsArray.get (cells s) idx = Null)); cbn; [done|].
  intros [= <-]. destruct (querySelector idx); cbn; [|done].
  by rewrite on_button_timers.
Qed.

Lemma cellClick_accepted (idx : Z) (s : state) (v : view) :
  rejection idx s = None →
  cellClick idx (mkPage s v) =
    Returned tt (mkPage (final (applyMove idx s)) (click_view idx s v)).
Proof.
  intros Hr. rewrite applyMove_accepted_final by done. cbn [final].
  pose proof Hr as (Hp & Hf & Hnull)%rejection_None.
  unfold cellClick, validateMove_page, click_view, strict_eq. unfold_p.
  cbn. rewrite Hp. cbn. rewrite Hf. cbn.
  rewrite Hnull, bool_decide_eq_true_2 by done. cbn.
  destruct (checkWin _) as [[w [[a b] d]|]|]; cbn;
    unfold updateScore, updateStatus; unfold_with; cbn;
    rewrite ?Hf, <- ?app_assoc; cbn; reflexivity.
Qed.

Lemma resetClick_final (s : state) (v : view) :
  resetClick (mkPage s v) =
    Returned tt (mkPage (final (reset s)) (reset_view s v)).
Proof. reflexivity. Qed.

(** ** Drawing never changes the game *)

Lemma handle_game (e : event) (pg : page) :
  game (handle e pg) =
    match e with
    | Click idx => exec (Move idx) (game pg)
    | ClickReset => exec ResetGame (game pg)
    | TimerFires => game pg
    end.
Proof.
  destruct pg as [s v]. destruct e as [idx| |]; cbn [handle game exec].
  - destruct (rejection idx s) as [r|] eqn:Hr.
    + rewrite (cellClick_rejected idx (mkPage s v) r Hr).
      rewrite (applyMove_rejected idx s r Hr).
      by destruct (querySelector idx).
    + by rewrite cellClick_accepted.
  - by rewrite resetClick_final.
  - reflexivity.
Qed.

Lemma browse_snoc (evs : list event) (e : event) (pg : page) :
  browse (evs ++ [e]) pg = handle e (browse evs pg).
Proof. unfold browse. by rewrite foldl_app. Qed.

Lemma ops_of_snoc (evs : list event) (e : event) :
  ops_of (evs ++ [e]) = ops_of evs ++ ops_of [e].
Proof. unfold ops_of. by rewrite omap_app. Qed.

(** X10.  Whatever the page shows, the full handlers change the five
    variables exactly as the game alone does: over any sequence of
    clicks, resets and timeouts, from any page, the variables are those
    of the game run on the clicks and resets.  Nothing that is drawn is
    ever read back, and a timeout touches no variable. *)
Theorem drawing_never_changes_the_game (evs : list event) (pg : page) :
  game (browse evs pg) = run (ops_of evs) (game pg).
Proof.
  induction evs as [|e evs IH] using rev_ind; [reflexivity|].
  rewrite browse_snoc, ops_of_snoc, run_app, handle_game, <- IH.
  by destruct e.
Qed.

(** ** Buttons, one by one *)

Lemma on_button_length (j : Z) (f : button → button) (v : view) :
  List.length (buttons (on_button j f v)) = List.length (buttons v).
Proof.
  unfold on_button. destruct (querySelector j); [|done].
  cbn. apply length_alter.
Qed.

Lemma button_at_on_button (v : view) (i j : Z) (f : button → button) :
  0 ≤ i < 9 → List.length (buttons v) = 9%nat →
  button_at (on_button j f v) i =
    if decide (i = j) then f (button_at v i) else button_at v i.
Proof.
  intros Hi Hlen. unfold on_button, querySelector, button_at.
  case_bool_decide as Hj; cbn [buttons with_buttons].
  - destruct (decide (i = j)) as [->|Hne].
    + rewrite list_lookup_alter_eq.
      destruct (lookup_lt_is_Some_2 (buttons v) (Z.to_nat j)) as [b Hb]; [lia|].
      by rewrite Hb.
    + rewrite list_lookup_alter_ne by lia. done.
  - rewrite decide_False by lia. done.
Qed.

Lemma button_at_setCellsDisabled (v : view) (i : Z) (d : bool) :
  0 ≤ i < 9 → List.length (buttons v) = 9%nat →
  button_at (setCellsDisabled d v) i = set_disabled d (button_at v i).
Proof.
  intros Hi Hlen. unfold setCellsDisabled, button_at. cbn [buttons with_buttons].
  change (map (set_disabled d) (buttons v)) with (set_disabled d <$> buttons v).
  rewrite list_lookup_fmap.
  destruct (lookup_lt_is_Some_2 (buttons v) (Z.to_nat i)) as [b Hb]; [lia|].
  by rewrite Hb.
Qed.

Lemma setCellsDisabled_length (d : bool) (v : view) :
  List.length (buttons (setCellsDisabled d v)) = List.length (buttons v).
Proof. unfold setCellsDisabled. cbn. apply length_map. Qed.

Lemma updateStatus_buttons (s : state) (v : view) :
  buttons (updateStatus s v) = buttons v.
Proof. unfold updateStatus. by destruct (finished s). Qed.

Lemma updateStatus_timers (s : state) (v : view) :
  timers (updateStatus s v) = timers v.
Proof. unfold updateStatus. by destruct (finished s). Qed.

Lemma button_at_ext (v v' : view) (i : Z) :
  buttons v' = buttons v → button_at v' i = button_at v i.
Proof. unfold button_at. by intros ->. Qed.

(** [on_button] changes buttons only. *)
Lemma on_button_banner_text (j : Z) (f : button → button) (v : view) :
  banner_text (on_button j f v) = banner_text v.
Proof. unfold on_button. by destruct (querySelector j). Qed.
Lemma on_button_banner_class (j : Z) (f : button → button) (v : view) :
  banner_class (on_button j f v) = banner_class v.
Proof. unfold on_button. by destruct (querySelector j). Qed.
Lemma on_button_banner_shown (j : Z) (f : button → button) (v : view) :
  banner_shown (on_button j f v) = banner_shown v.
Proof. unfold on_button. by destruct (querySelector j). Qed.
Lemma on_button_status_text (j : Z) (f : button → button) (v : view) :
  status_text (on_button j f v) = status_text v.
Proof. unfold on_button. by destruct (querySelector j). Qed.
Lemma on_button_status_hidden (j : Z) (f : button → button) (v : view) :
  status_hidden (on_button j f v) = status_hidden v.
Proof. unfold on_button. by destruct (querySelector j). Qed.
Lemma on_button_shown_X (j : Z) (f : button → button) (v : view) :
  shown_X (on_button j f v) = shown_X v.
Proof. unfold on_button. by destruct (querySelector j). Qed.
Lemma on_button_shown_O (j : Z) (f : button → button) (v : view) :
  shown_O (on_button j f v) = shown_O v.
Proof. unfold on_button. by destruct (querySelector j). Qed.
Lemma on_button_shown_draws (j : Z) (f : button → button) (v : view) :
  shown_draws (on_button j f v) = shown_draws v.
Proof. unfold on_button. by destruct (querySelector j). Qed.

Create Rewrite HintDb view_fields.
#[local] Hint Rewrite on_button_banner_text on_button_banner_class
  on_button_banner_shown on_button_status_text on_button_status_hidden
  on_button_shown_X on_button_shown_O on_button_shown_draws
  on_button_timers on_button_length setCellsDisabled_length
  updateStatus_buttons updateStatus_timers : view_fields.

Ltac view_simpl :=
  unfold shake_view, setCellsDisabled, showResult, updateScore, hideResult,
    with_buttons, with_timers; cbn;
  autorewrite with view_fields; cbn.

(** ** The screen follows the variables *)

Lemma view_inv_rejected (r : reason) (i : Z) (s : state) (v : view) :
  view_inv (mkPage s v) →
  view_inv (mkPage (reported r i s) (shake_view i v)).
Proof.
  intros (Hlen & Hcells & Hban & Hsta & Hres & Hturn & HX & HO & Hd).
  cbn [game screen] in *. unfold view_inv. cbn [game screen].
  split_and!; try (view_simpl; done).
  intros k Hk. destruct (Hcells k Hk) as (Ht & Hdis & Hwin & Hinv).
  unfold shake_view.
  rewrite (button_at_ext (on_button i (set_invalid true) v)) by done.
  rewrite button_at_on_button by done.
  destruct (decide (k = i)) as [->|Hne]; cbn; split_and!; try done.
  - intros _. apply elem_of_app. right. by left.
  - intros Hshake. apply elem_of_app. left. by apply Hinv.
Qed.

Lemma view_inv_timer (s : state) (v : view) :
  view_inv (mkPage s v) →
  view_inv (mkPage s (match timers v with
                      | [] => v
                      | j :: rest =>
                          with_timers rest (on_button j (set_invalid false) v)
                      end)).
Proof.
  intros Hinv. destruct (timers v) as [|j rest] eqn:Ht; [done|].
  destruct Hinv as (Hlen & Hcells & Hban & Hsta & Hres & Hturn & HX & HO & Hd).
  cbn [game screen] in *. unfold view_inv. cbn [game screen].
  split_and!; try (view_simpl; done).
  intros k Hk. destruct (Hcells k Hk) as (Htx & Hdis & Hwin & Hshake).
  rewrite (button_at_ext (on_button j (set_invalid false) v)) by done.
  rewrite button_at_on_button by done.
  destruct (decide (k = j)) as [->|Hne]; cbn; split_and!; try done.
  intros Hs. specialize (Hshake Hs). rewrite Ht in Hshake.
  apply elem_of_cons in Hshake as [?|?]; done.
Qed.

Lemma wiped_wiped (b : button) : wiped (wiped b) = wiped b.
Proof. reflexivity. Qed.

Lemma wipe_all_fields (l : list Z) (v : view) :
  let u := foldl (fun u i => on_button i wiped u) v l in
  List.length (buttons u) = List.length (buttons v) ∧
  banner_text u = banner_text v ∧ banner_class u = banner_class v ∧
  banner_shown u = banner_shown v ∧ status_text u = status_text v ∧
  status_hidden u = status_hidden v ∧ shown_X u = shown_X v ∧
  shown_O u = shown_O v ∧ shown_draws u = shown_draws v ∧
  timers u = timers v.
Proof.
  revert v. induction l as [|j l IH]; intros v; cbn [foldl]; [done|].
  specialize (IH (on_button j wiped v)). cbn zeta in *.
  autorewrite with view_fields in IH. exact IH.
Qed.

Lemma button_at_wipe_all (l : list Z) (v : view) (k : Z) :
  0 ≤ k < 9 → List.length (buttons v) = 9%nat →
  button_at (foldl (fun u i => on_button i wiped u) v l) k =
    if decide (k ∈ l) then wiped (button_at v k) else button_at v k.
Proof.
  intros Hk. revert v. induction l as [|j l IH]; intros v Hlen; cbn [foldl].
  - by rewrite decide_False by apply not_elem_of_nil.
  - rewrite IH by (by rewrite on_button_length).
    rewrite button_at_on_button by done.
    destruct (decide (k = j)) as [->|Hne].
    + rewrite (decide_True (P := j ∈ j :: l)) by (by left).
      by destruct (decide (j ∈ l)).
    + destruct (decide (k ∈ l)) as [Hl|Hl].
      * by rewrite decide_True by (by right).
      * rewrite decide_False; [done|].
        intros [?|?]%elem_of_cons; done.
Qed.

Lemma view_inv_reset (s : state) (v : view) :
  view_inv (mkPage s v) →
  view_inv (mkPage (final (reset s)) (reset_view s v)).
Proof.
  intros (Hlen & Hcells & Hban & Hsta & Hres & Hturn & HX & HO & Hd).
  cbn [game screen] in *.
  destruct (wipe_all_fields (seqZ 0 9) v)
    as (Wlen & Wbt & Wbc & Wbs & Wst & Wsh & WX & WO & Wd & Wt).
  cbn zeta in *.
  unfold view_inv, reset_view. cbn [game screen].
  set (cleared := foldl (fun u i => on_button i wiped u) v (seqZ 0 9)) in *.
  rewrite reset_final. cbn [final].
  unfold hideResult, updateStatus. cbn [finished currentPlayer score cells].
  cbn [buttons banner_text banner_class banner_shown status_text
       status_hidden shown_X shown_O shown_draws timers].
  split_and!; try done.
  - rewrite setCellsDisabled_length. congruence.
  - intros k Hk.
    match goal with
    | |- context [button_at ?w k] =>
        rewrite (button_at_ext (setCellsDisabled false cleared) w k) by done
    end.
    rewrite button_at_setCellsDisabled by (done || congruence).
    unfold cleared. rewrite button_at_wipe_all by done.
    rewrite decide_True by (by apply elem_of_seqZ_0_9).
    pose proof (reset_cells_get s k) as Hget.
    rewrite reset_final in Hget. cbn [final cells] in Hget.
    rewrite Hget, bool_decide_eq_true_2 by done.
    cbn. split_and!; done.
Qed.

Lemma view_inv_accepted (idx : Z) (s : state) (v : view) :
  rejection idx s = None →
  view_inv (mkPage s v) →
  view_inv (mkPage (final (applyMove idx s)) (click_view idx s v)).
Proof.
  intros Hr (Hlen & Hcells & Hban & Hsta & Hres & Hturn & HX & HO & Hd).
  pose proof Hr as (Hp & Hf & Hnull)%rejection_None.
  cbn [game screen] in *.
  rewrite applyMove_accepted_final by done. cbn [final].
  unfold view_inv, click_view. cbn [game screen].
  set (p := currentPlayer s) in *.
  set (c := JsArray.set (cells s) idx (Str p)) in *.
  set (v1 := on_button idx (set_text (Some p)) v) in *.
  assert (Hlen1 : List.length (buttons v1) = 9%nat).
  { unfold v1. by rewrite on_button_length. }
  assert (Ht1 : timers v1 = timers v).
  { unfold v1. apply on_button_timers. }
  assert (Hb1 : ∀ k, 0 ≤ k < 9 →
            textContent (button_at v1 k) = mark_of (JsArray.get c k) ∧
            disabled (button_at v1 k) = false ∧
            cell_win (button_at v1 k) = false ∧
            (cell_invalid (button_at v1 k) = true → k ∈ timers v)).
  { intros k Hk. destruct (Hcells k Hk) as (Ht & Hdis & Hwin & Hshake).
    unfold lit in Hwin. rewrite Hf in Hdis, Hwin.
    unfold v1, c. rewrite button_at_on_button by done.
    destruct (decide (k = idx)) as [->|Hne].
    - rewrite get_set_eq. cbn. done.
    - rewrite get_set_ne by done. done. }
  destruct (checkWin c) as [[w [[a b] d]|]|] eqn:Hw.
  - (* a win *)
    unfold lit. cbn [finished cells currentPlayer score]. rewrite Hw.
    split_and!; try (view_simpl; done).
    { view_simpl. rewrite length_map. by autorewrite with view_fields. }
    intros k Hk. destruct (Hb1 k Hk) as (Ht & Hdis & Hwin & Hshake).
    match goal with
    | |- context [button_at ?u k] =>
        rewrite (button_at_ext
                   (setCellsDisabled true
                      (on_button d (set_win true)
                         (on_button b (set_win true)
                            (on_button a (set_win true) v1)))) u k) by done
    end.
    rewrite button_at_setCellsDisabled by (autorewrite with view_fields; done).
    rewrite !button_at_on_button by (autorewrite with view_fields; done).
    view_simpl.
    rewrite Ht1.
    destruct (decide (k = d)), (decide (k = b)), (decide (k = a)); cbn;
      rewrite ?Hwin; (split_and!; [done|done| |done]);
      first [ by rewrite bool_decide_eq_true_2 by tauto
            | by rewrite bool_decide_eq_false_2 by tauto ].
  - (* a draw *)
    unfold lit. cbn [finished cells currentPlayer score]. rewrite Hw.
    split_and!; try (view_simpl; done).
    { view_simpl. by rewrite length_map. }
    intros k Hk. destruct (Hb1 k Hk) as (Ht & Hdis & Hwin & Hshake).
    match goal with
    | |- context [button_at ?u k] =>
        rewrite (button_at_ext (setCellsDisabled true v1) u k) by done
    end.
    rewrite button_at_setCellsDisabled by done.
    view_simpl. rewrite Ht1. done.
  - (* the game goes on *)
    unfold lit, updateStatus. cbn [finished cells currentPlayer score].
    unfold with_currentPlayer. cbn [finished currentPlayer]. rewrite Hf.
    cbn [buttons banner_text banner_class banner_shown status_text
         status_hidden shown_X shown_O shown_draws timers].
    split_and!; [done| |unfold v1; autorewrite with view_fields;
                        first [done|congruence]..].
    intros k Hk. destruct (Hb1 k Hk) as (Ht & Hdis & Hwin & Hshake).
    match goal with
    | |- context [button_at (mkView ?a1 ?a2 ?a3 ?a4 ?a5 ?a6 ?a7 ?a8 ?a9 ?a10) k] =>
        rewrite (button_at_ext v1 (mkView a1 a2 a3 a4 a5 a6 a7 a8 a9 a10) k)
          by done
    end.
    rewrite Ht1. done.
Qed.

Lemma loaded_view_inv : view_inv loaded.
Proof.
  unfold view_inv. cbn [game screen loaded].
  split_and!; try reflexivity; [|intros H; discriminate H].
  intros k Hk. cell_cases k Hk; split_and!; try reflexivity;
    intros H; discriminate H.
Qed.

Lemma handle_view_inv (e : event) (pg : page) :
  view_inv pg → view_inv (handle e pg).
Proof.
  destruct pg as [s v]. intros Hinv. destruct e as [idx| |]; cbn [handle].
  - destruct (rejection idx s) as [r|] eqn:Hr.
    + rewrite (cellClick_rejected idx (mkPage s v) r Hr).
      destruct (querySelector idx) as [i|]; cbn [landed game screen]; [|done].
      by apply view_inv_rejected.
    + rewrite cellClick_accepted by done. cbn [landed].
      by apply view_inv_accepted.
  - rewrite resetClick_final. cbn [landed]. by apply view_inv_reset.
  - by apply view_inv_timer.
Qed.

Lemma browse_view_inv (evs : list event) : view_inv (browse evs loaded).
Proof.
  induction evs as [|e evs IH] using rev_ind.
  - apply loaded_view_inv.
  - rewrite browse_snoc. by apply handle_view_inv.
Qed.

Lemma browse_game (evs : list event) :
  game (browse evs loaded) = run (ops_of evs) init.
Proof.
  induction evs as [|e evs IH] using rev_ind; [reflexivity|].
  rewrite browse_snoc, ops_of_snoc, run_app, handle_game, <- IH.
  by destruct e.
Qed.

(** From a fact about each of the nine buttons to a fact about the list
    of them. *)
Lemma buttons_map_ext {A} (f : button → A) (g : Z → A) (v : view) :
  List.length (buttons v) = 9%nat →
  (∀ i, 0 ≤ i < 9 → f (button_at v i) = g i) →
  map f (buttons v) = map g (seqZ 0 9).
Proof.
  intros Hlen H. unfold button_at in H.
  destruct (buttons v)
    as [|b0 [|b1 [|b2 [|b3 [|b4 [|b5 [|b6 [|b7 [|b8 [|]]]]]]]]]];
    try discriminate Hlen.
  rewrite seqZ_0_9. cbn [map].
  rewrite <- (H 0), <- (H 1), <- (H 2), <- (H 3), <- (H 4), <- (H 5),
    <- (H 6), <- (H 7), <- (H 8) by lia.
  reflexivity.
Qed.

(** ** What the page shows in a session *)

(** X11.  At every moment of a session each button shows the mark of
    its cell, and nothing when the cell is empty. *)
Theorem buttons_show_the_board (evs : list event) :
  map textContent (buttons (screen (browse evs loaded)))
  = map mark_of (board_of (game (browse evs loaded))).
Proof.
  destruct (browse_view_inv evs) as (Hlen & Hcells & _).
  unfold board_of. rewrite map_map.
  apply buttons_map_ext; [done|]. intros i Hi. by apply Hcells.
Qed.

(** X12.  At every moment of a session the nine buttons are disabled
    when the game has finished and enabled when it is in progress. *)
Theorem buttons_disabled_iff_finished (evs : list event) :
  map disabled (buttons (screen (browse evs loaded)))
  = replicate 9%nat (finished (game (browse evs loaded))).
Proof.
  destruct (browse_view_inv evs) as (Hlen & Hcells & _).
  change (replicate 9%nat (finished (game (browse evs loaded))))
    with (map (fun _ : Z => finished (game (browse evs loaded))) (seqZ 0 9)).
  apply buttons_map_ext; [done|]. intros i Hi. by apply Hcells.
Qed.

(** X13.  At every moment of a session exactly one of the banner and
    the status line is visible: the banner when the game has finished,
    the status line while it is in progress. *)
Theorem banner_or_status_visible (evs : list event) :
  banner_shown (screen (browse evs loaded)) = finished (game (browse evs loaded)) ∧
  status_hidden (screen (browse evs loaded)) = finished (game (browse evs loaded)).
Proof.
  destruct (browse_view_inv evs) as (_ & _ & Hban & Hsta & _). done.
Qed.

(** X14.  In a session, when the game has finished, the banner
    announces what [checkWin] finds on the board: the winner with the
    win style, or the draw with the draw style. *)
Theorem banner_announces_the_result (evs : list event) :
  finished (game (browse evs loaded)) = true →
  ∃ r, checkWin (cells (game (browse evs loaded))) = Some r ∧
       banner_text (screen (browse evs loaded)) = announced (Some r) ∧
       banner_class (screen (browse evs loaded)) = announced_type (Some r).
Proof.
  intros Hf.
  destruct (browse_view_inv evs) as (_ & _ & _ & _ & Hres & _).
  destruct (Hres Hf) as [Ht Hc].
  pose proof (run_status_inv (ops_of evs)) as [Hfin _].
  rewrite <- browse_game, Hf in Hfin.
  destruct (checkWin (cells (game (browse evs loaded)))) as [r|]; [|done].
  by exists r.
Qed.

Lemma banner_announces_the_result_witness :
  ∃ r, checkWin (cells (game (browse
         [Click 0; Click 3; Click 1; Click 4; Click 2] loaded))) = Some r ∧
       banner_text (screen (browse
         [Click 0; Click 3; Click 1; Click 4; Click 2] loaded))
       = announced (Some r) ∧
       banner_class (screen (browse
         [Click 0; Click 3; Click 1; Click 4; Click 2] loaded))
       = announced_type (Some r).
Proof.
  apply (banner_announces_the_result
           [Click 0; Click 3; Click 1; Click 4; Click 2]).
  reflexivity.
Defined.

(** X15.  In a session, while the game is in progress, the status line
    names the player whose turn it is. *)
Theorem status_names_the_player_to_move (evs : list event) :
  finished (game (browse evs loaded)) = false →
  status_text (screen (browse evs loaded))
  = Some (currentPlayer (game (browse evs loaded))).
Proof.
  intros Hf.
  destruct (browse_view_inv evs) as (_ & _ & _ & _ & _ & Hturn & _).
  by apply Hturn.
Qed.

Lemma status_names_the_player_to_move_witness :
  status_text (screen (browse [Click 4; Click 4; ClickReset; Click 0] loaded))
  = Some (currentPlayer
            (game (browse [Click 4; Click 4; ClickReset; Click 0] loaded))).
Proof.
  apply (status_names_the_player_to_move
           [Click 4; Click 4; ClickReset; Click 0]).
  reflexivity.
Defined.

(** X16.  At every moment of a session the scoreboard shows the three
    counters of [score]. *)
Theorem scoreboard_shows_the_score (evs : list event) :
  shown_X (screen (browse evs loaded)) = score_X (score (game (browse evs loaded))) ∧
  shown_O (screen (browse evs loaded)) = score_O (score (game (browse evs loaded))) ∧
  shown_draws (screen (browse evs loaded))
  = score_draws (score (game (browse evs loaded))).
Proof.
  destruct (browse_view_inv evs) as (_ & _ & _ & _ & _ & _ & HX & HO & Hd).
  done.
Qed.

(** X17.  At every moment of a session the buttons that carry the win
    highlight are exactly the three cells of the reported combination of
    a game that was won; no button is highlighted while a game is in
    progress or after a draw. *)
Theorem highlight_marks_the_winning_cells (evs : list event) :
  map cell_win (buttons (screen (browse evs loaded)))
  = map (lit (game (browse evs loaded))) (seqZ 0 9).
Proof.
  destruct (browse_view_inv evs) as (Hlen & Hcells & _).
  apply buttons_map_ext; [done|]. intros i Hi. by apply Hcells.
Qed.

(** ** The shake of a turned-down click *)

(** X18.  In a session a button carries the shake class only while a
    timeout that removes it is pending: when no timeout is pending, no
    button shakes. *)
Theorem no_shake_without_pending_timeout (evs : list event) :
  timers (screen (browse evs loaded)) = [] →
  map cell_invalid (buttons (screen (browse evs loaded)))
  = replicate 9%nat false.
Proof.
  intros Ht. destruct (browse_view_inv evs) as (Hlen & Hcells & _).
  change (replicate 9%nat false) with (map (fun _ : Z => false) (seqZ 0 9)).
  apply buttons_map_ext; [done|]. intros i Hi.
  destruct (Hcells i Hi) as (_ & _ & _ & Hshake).
  destruct (cell_invalid _); [|done].
  specialize (Hshake eq_refl). rewrite Ht in Hshake.
  by apply elem_of_nil in Hshake.
Qed.

Lemma no_shake_without_pending_timeout_witness :
  map cell_invalid
      (buttons (screen (browse [Click 0; Click 0; TimerFires] loaded)))
  = replicate 9%nat false.
Proof.
  apply (no_shake_without_pending_timeout [Click 0; Click 0; TimerFires]).
  reflexivity.
Defined.

Lemma handle_timer_timers (pg : page) :
  timers (screen (handle TimerFires pg)) = tail (timers (screen pg)).
Proof.
  destruct pg as [s v]. cbn. destruct (timers v) as [|j rest] eqn:Ht; cbn.
  - by rewrite Ht.
  - done.
Qed.

Lemma browse_timers_drop (n : nat) (pg : page) :
  timers (screen (browse (replicate n TimerFires) pg))
  = drop n (timers (screen pg)).
Proof.
  revert pg. induction n as [|n IH]; intros pg; [done|].
  change (browse (replicate (S n) TimerFires) pg)
    with (browse (replicate n TimerFires) (handle TimerFires pg)).
  rewrite IH, handle_timer_timers.
  destruct (timers (screen pg)); cbn [tail]; [by rewrite !drop_nil|done].
Qed.

(** X19.  From every moment of a session, once the pending timeouts
    have all run, no button shakes. *)
Theorem shake_ends_when_timeouts_have_run (evs : list event) :
  map cell_invalid
      (buttons (screen
         (browse (replicate (List.length (timers (screen (browse evs loaded))))
                            TimerFires)
                 (browse evs loaded))))
  = replicate 9%nat false.
Proof.
  set (n := List.length (timers (screen (browse evs loaded)))).
  assert (Hrun : browse (replicate n TimerFires) (browse evs loaded)
                 = browse (evs ++ replicate n TimerFires) loaded).
  { unfold browse. by rewrite foldl_app. }
  assert (Ht : timers (screen (browse (evs ++ replicate n TimerFires) loaded)) = []).
  { rewrite <- Hrun, browse_timers_drop. by apply drop_all. }
  rewrite Hrun.
  destruct (browse_view_inv (evs ++ replicate n TimerFires))
    as (Hlen & Hcells & _).
  change (replicate 9%nat false) with (map (fun _ : Z => false) (seqZ 0 9)).
  apply buttons_map_ext; [done|]. intros i Hi.
  destruct (Hcells i Hi) as (_ & _ & _ & Hshake).
  destruct (cell_invalid _); [|done].
  specialize (Hshake eq_refl). rewrite Ht in Hshake.
  by apply elem_of_nil in Hshake.
Qed.
